(** * Extension supervision core of osquery (osquery/extensions/extensions.cpp)

    A shallow embedding of the extension manager / extension watcher code:
    the bounded-wait prober [applyExtensionDelay], the endpoint probe
    [extensionPathActive], the manager-side failure ledger, the autoload
    vetting of loadfiles and the host-side RPC facade.

    The RPC transport, the filesystem and the registry are collaborators:
    their observations are read from a [Snap]shot of the world at the
    current clock, and the calls the code makes are recorded in a trace. *)

From Stdlib Require Import ZArith Ascii String List Lia.
From stdpp Require Import base gmap strings list pretty.
Import ListNotations.

Open Scope Z_scope.

(* ------------------------------------------------------------------ *)
(** ** Status and the Thrift-side records *)

(** [osquery::Status]: a code and a message; [ok()] is [code == 0]. *)
Record Status := mkStatus { code : Z; message : string }.

Definition ok (s : Status) : bool := Z.eqb (code s) 0.

(** [ExtensionCode::EXT_SUCCESS] of the Thrift interface. *)
Definition EXT_SUCCESS : Z := 0.

(** [ExtensionStatus] returned by ping, register and friends. *)
Record ExtensionStatus := mkExtensionStatus {
  es_code : Z; es_message : string; es_uuid : Z }.

(** A row / plugin response item: [std::map<string, string>]. *)
Definition Row := list (string * string).

(** [ExtensionResponse]: a status and a list of rows. *)
Record ExtensionResponse := mkExtensionResponse {
  er_status : ExtensionStatus; er_response : list Row }.

(** [InternalExtensionInfo] / [ExtensionInfo]. *)
Record ExtensionInfo := mkExtensionInfo {
  ei_name : string; ei_version : string;
  ei_min_sdk_version : string; ei_sdk_version : string }.

(* ------------------------------------------------------------------ *)
(** ** Flags *)

Record Flags := mkFlags {
  FLAGS_disable_extensions : bool;
  FLAGS_extensions_socket : string;
  FLAGS_extensions_timeout : string;
  FLAGS_extension : string;
  FLAGS_extensions_require : string }.

(* ------------------------------------------------------------------ *)
(** ** C integer conversions used by [applyExtensionDelay] *)

Definition is_space (c : ascii) : bool :=
  let n := nat_of_ascii c in
  (n =? 32)%nat || ((9 <=? n)%nat && (n <=? 13)%nat).

Definition is_digit (c : ascii) : bool :=
  let n := nat_of_ascii c in ((48 <=? n)%nat && (n <=? 57)%nat).

Definition digit_val (c : ascii) : Z := Z.of_nat (nat_of_ascii c) - 48.

Fixpoint skip_space (s : string) : string :=
  match s with
  | String c r => if is_space c then skip_space r else s
  | EmptyString => s
  end.

(** Digits accumulated left to right, stopping at the first non-digit. *)
Fixpoint parse_digits (acc : Z) (s : string) : Z :=
  match s with
  | String c r => if is_digit c then parse_digits (acc * 10 + digit_val c) r else acc
  | EmptyString => acc
  end.

(** [strtol(s, NULL, 10)] on an LP64 target: leading white space, an
    optional sign, decimal digits, saturated to the range of [long]. *)
Definition strtol10 (s : string) : Z :=
  let v := match skip_space s with
           | String "-" r => - parse_digits 0 r
           | String "+" r => parse_digits 0 r
           | r => parse_digits 0 r
           end in
  Z.max (- 2 ^ 63) (Z.min (2 ^ 63 - 1) v).

(** Two's complement truncation to a 32-bit [int]. *)
Definition wrap_int (z : Z) : Z :=
  let m := z mod 2 ^ 32 in if 2 ^ 31 <=? m then m - 2 ^ 32 else m.

(** [atoi] as glibc implements it: [(int) strtol(s, NULL, 10)]. *)
Definition atoi (s : string) : Z := wrap_int (strtol10 s).

(** Conversion of an [int] to the 64-bit [size_t]. *)
Definition to_size_t (z : Z) : Z := z mod 2 ^ 64.

(** [const size_t kExtensionInitializeLatency = 20;] *)
Definition kExtensionInitializeLatency : Z := 20.

(** The deadline computed at the top of [applyExtensionDelay]:
    [size_t timeout = atoi(FLAGS_extensions_timeout.c_str()) * 1000;]
    (an [int] product, stored in a [size_t]) followed by the floor
    [if (timeout < kExtensionInitializeLatency * 10) timeout = ...]. *)
Definition delay_timeout (flag : string) : Z :=
  let timeout := to_size_t (wrap_int (atoi flag * 1000)) in
  if timeout <? kExtensionInitializeLatency * 10
  then kExtensionInitializeLatency * 10 else timeout.


(* ------------------------------------------------------------------ *)
(** ** [boost::filesystem::path::parent_path] (version 3, POSIX)

    A translation of [filename_pos], [root_directory_start] and
    [path::m_parent_path_end] of boost's [path.cpp] on the POSIX API:
    ['/'] is the only separator and ["//name"] is a root name.  Positions
    are indices into the string; [None] is [string_type::npos]. *)

Open Scope nat_scope.

Definition is_sep (c : ascii) : bool := Ascii.eqb c "/".

(** [str[i]] *)
Definition char_at (l : list ascii) (i : nat) : ascii := nth i l "000"%char.

(** [str.find_last_of(separators, k)]: the last separator at or before [k]. *)
Definition find_last_sep (l : list ascii) (k : nat) : option nat :=
  let fix go (r : list ascii) (i : nat) (acc : option nat) :=
    match r with
    | [] => acc
    | c :: r' => go r' (S i) (if is_sep c && (i <=? k)%nat then Some i else acc)
    end in
  go l O None.

(** [str.find_first_of(separators, k)]: the first separator at or after [k]. *)
Definition find_first_sep (l : list ascii) (k : nat) : option nat :=
  let fix go (r : list ascii) (i : nat) :=
    match r with
    | [] => None
    | c :: r' => if is_sep c && (k <=? i)%nat then Some i else go r' (S i)
    end in
  go l O.

(** Start of the last element of the first [end_pos] characters. *)
Definition filename_pos (l : list ascii) (end_pos : nat) : nat :=
  if (end_pos =? 2)%nat && is_sep (char_at l 0) && is_sep (char_at l 1) then 0
  else if (0 <? end_pos)%nat && is_sep (char_at l (end_pos - 1)) then end_pos - 1
  else match find_last_sep l (end_pos - 1) with
       | None => 0
       | Some pos => if (pos =? 1)%nat && is_sep (char_at l 0) then 0 else S pos
       end.

(** Position of the root directory separator, if any. *)
Definition root_directory_start (l : list ascii) (size : nat) : option nat :=
  if (size =? 2)%nat && is_sep (char_at l 0) && is_sep (char_at l 1) then None
  else if (3 <? size)%nat && is_sep (char_at l 0) && is_sep (char_at l 1)
          && negb (is_sep (char_at l 2)) then
    match find_first_sep l 2 with
    | Some pos => if (pos <? size)%nat then Some pos else None
    | None => None
    end
  else if (0 <? size)%nat && is_sep (char_at l 0) then Some 0
  else None.

(** [pos == n] for a position that may be [npos] ([None]). *)
Definition pos_eqb (pos : option nat) (n : nat) : bool :=
  match pos with Some m => (m =? n)%nat | None => false end.

Definition parent_path_end (l : list ascii) : option nat :=
  let end_pos := filename_pos l (length l) in
  let filename_was_separator := (0 <? length l)%nat && is_sep (char_at l end_pos) in
  let root_dir_pos := root_directory_start l end_pos in
  (* skip separators unless root directory; the loop runs at most
     [end_pos] times *)
  let fix skip (fuel end_pos : nat) :=
    match fuel with
    | O => end_pos
    | S fuel' =>
        if (0 <? end_pos)%nat
           && negb (pos_eqb root_dir_pos (end_pos - 1))
           && is_sep (char_at l (end_pos - 1))
        then skip fuel' (end_pos - 1) else end_pos
    end in
  let end_pos := skip end_pos end_pos in
  if (end_pos =? 1)%nat && pos_eqb root_dir_pos 0 && filename_was_separator
  then None else Some end_pos.

Close Scope nat_scope.

(** [path::parent_path()]: an [npos] end gives the empty path. *)
Definition parent_path (p : string) : string :=
  let l := list_ascii_of_string p in
  match parent_path_end l with
  | None => ""
  | Some e => string_of_list_ascii (firstn e l)
  end.

(** [fs::path(p).string()]: the stored native string, unchanged. *)
Definition path_string (p : string) : string := p.

(* ------------------------------------------------------------------ *)
(** ** The world, the trace and the state monad *)

(** The collaborators' observable behaviour at one instant.  An RPC
    returns [inl what] when the client throws, [inr result] otherwise. *)
Record Snap := mkSnap {
  sn_pathExists : string -> bool;
  sn_isWritable : string -> bool;
  (** constructing a client on the path succeeds *)
  sn_connect : string -> bool;
  sn_ping : string -> string + ExtensionStatus;
  sn_query : string -> string -> string + ExtensionResponse;
  sn_getQueryColumns : string -> string -> string + ExtensionResponse;
  sn_extensions : string -> string + list (Z * ExtensionInfo);
  sn_call : string -> string -> string -> Row -> string + ExtensionResponse;
  (** [osquery::remove(path).ok()] *)
  sn_remove : string -> bool }.

(** What the code does to the outside world. *)
Inductive Event :=
| EvProbe (path : string)          (* pathExists / isWritable on an endpoint *)
| EvConnect (path : string)        (* client construction in extensionPathActive *)
| EvRpc (path : string) (meth : string)
| EvSleep (ms : Z)
| EvRemove (path : string)          (* osquery::remove of a stale socket *)
| EvAddService (service : string).  (* Dispatcher::addService *)

Global Instance Event_eq_dec : EqDecision Event.
Proof. solve_decision. Defined.

(** Occurrences of an event in a trace. *)
Definition count_event (e : Event) (evs : list Event) : nat :=
  length (filter (fun x => bool_decide (x = e)) evs).

Record St := mkSt { clock : Z; trace : list Event }.

Definition M (A : Type) : Type := St -> A * St.

Global Instance M_ret : MRet M := fun A x s => (x, s).
Global Instance M_bind : MBind M :=
  fun A B f m s => let '(x, s') := m s in f x s'.

Definition emit (e : Event) : M unit :=
  fun s => (tt, mkSt (clock s) (trace s ++ [e])).

(** [sleepFor(ms)]: the clock advances. *)
Definition sleepFor (ms : Z) : M unit :=
  fun s => (tt, mkSt (clock s + ms) (trace s ++ [EvSleep ms])).

Section Code.

Variable flags : Flags.
(** The world as a function of the clock (milliseconds). *)
Variable world : Z -> Snap.

Definition now : M Snap := fun s => (world (clock s), s).

(* ------------------------------------------------------------------ *)
(** ** [applyExtensionDelay] *)

(** The do-while loop.  [delay] is the total wait so far.  The loop stops
    after at most [timeout / 20 + 1] predicate calls, so [fuel] equal to
    [timeout / 20] never runs out: the k-th recursive call happens only
    when [20 * (k + 1) < timeout]. *)
Fixpoint delay_loop (timeout : Z) (predicate : M (bool * Status))
    (fuel : nat) (delay : Z) : M Status :=
  '(stop, status) ← predicate;
  if stop || ok status then mret status else
  let delay := delay + kExtensionInitializeLatency in
  sleepFor kExtensionInitializeLatency ;;
  if delay <? timeout then
    match fuel with
    | O => mret status
    | S fuel => delay_loop timeout predicate fuel delay
    end
  else mret status.

Definition applyExtensionDelay (predicate : M (bool * Status)) : M Status :=
  let timeout := delay_timeout (FLAGS_extensions_timeout flags) in
  delay_loop timeout predicate (Z.to_nat (timeout / kExtensionInitializeLatency)) 0.

(* ------------------------------------------------------------------ *)
(** ** [extensionPathActive] (socket-file branch) *)

Definition not_available (path : string) : Status :=
  mkStatus 1 ("Extension socket not available: " ++ path).

(** The predicate handed to [applyExtensionDelay]: the endpoint must exist
    and be writable, and a client must connect to it.  Without
    [use_timeout] the predicate sets [stop] after its first failure. *)
Definition path_active_predicate (path : string) (use_timeout : bool)
    : M (bool * Status) :=
  snap ← now;
  emit (EvProbe path) ;;
  if sn_pathExists snap path && sn_isWritable snap path then
    emit (EvConnect path) ;;
    if sn_connect snap path then mret (false, mkStatus 0 "OK")
    else mret (negb use_timeout, not_available path)
  else mret (negb use_timeout, not_available path).

Definition extensionPathActive (path : string) (use_timeout : bool) : M Status :=
  applyExtensionDelay (path_active_predicate path use_timeout).

(* ------------------------------------------------------------------ *)
(** ** Helpers of the facade *)

(** Modelled from the spec: [getExtensionSocket] (osquery/extensions, not
    part of this file): "the manager endpoint with [.] + decimal u
    appended". *)
Definition getExtensionSocket_at (uuid : Z) (manager_path : string) : string :=
  manager_path ++ "." ++ pretty (Z.to_N uuid).

Definition getExtensionSocket (uuid : Z) : string :=
  getExtensionSocket_at uuid (FLAGS_extensions_socket flags).

(** [ExtensionList]: a [std::map<RouteUUID, ExtensionInfo>], kept as an
    association list sorted by key; [map_set] is [m[k] = v]. *)
Fixpoint map_set {A} (k : Z) (v : A) (m : list (Z * A)) : list (Z * A) :=
  match m with
  | [] => [(k, v)]
  | (k', v') :: r =>
      if k =? k' then (k, v) :: r
      else if k <? k' then (k, v) :: m
      else (k', v') :: map_set k v r
  end.

Definition call_failed (what : string) : Status :=
  mkStatus 1 ("Extension call failed: " ++ what).

Definition disabled_status : Status := mkStatus 1 "Extensions disabled".

Definition of_ext_status (es : ExtensionStatus) : Status :=
  mkStatus (es_code es) (es_message es).

Variable kVersion kSDKVersion : string.
(** [columnTypeName]: the column type enum of a type name. *)
Variable columnTypeName : string -> Z.

(* ------------------------------------------------------------------ *)
(** ** Host-side RPC facade *)

Definition queryExternal_at (manager_path query : string) (results : list Row)
    : M (Status * list Row) :=
  status ← extensionPathActive manager_path false;
  if negb (ok status) then mret (status, results) else
  snap ← now;
  emit (EvRpc manager_path "query") ;;
  match sn_query snap manager_path query with
  | inl what => mret (call_failed what, results)
  | inr response =>
      (* every row is appended before the status is looked at *)
      mret (of_ext_status (er_status response), results ++ er_response response)
  end.

Definition queryExternal (query : string) (results : list Row) : M (Status * list Row) :=
  queryExternal_at (FLAGS_extensions_socket flags) query results.

(** [TableColumns]: (name, type, options); [ColumnOptions::DEFAULT] is 0. *)
Definition TableColumns := list (string * Z * Z).

Definition getQueryColumnsExternal_at (manager_path query : string)
    (columns : TableColumns) : M (Status * TableColumns) :=
  status ← extensionPathActive manager_path false;
  if negb (ok status) then mret (status, columns) else
  snap ← now;
  emit (EvRpc manager_path "getQueryColumns") ;;
  match sn_getQueryColumns snap manager_path query with
  | inl what => mret (call_failed what, columns)
  | inr response =>
      mret (of_ext_status (er_status response),
            columns ++ flat_map (fun column =>
              map (fun col => (col.1, columnTypeName col.2, 0)) column)
              (er_response response))
  end.

Definition getQueryColumnsExternal (query : string) (columns : TableColumns)
    : M (Status * TableColumns) :=
  getQueryColumnsExternal_at (FLAGS_extensions_socket flags) query columns.

Definition pingExtension (path : string) : M Status :=
  if FLAGS_disable_extensions flags then mret disabled_status else
  status ← extensionPathActive path false;
  if negb (ok status) then mret status else
  snap ← now;
  emit (EvRpc path "ping") ;;
  match sn_ping snap path with
  | inl what => mret (call_failed what)
  | inr ext_status => mret (of_ext_status ext_status)
  end.

Definition ExtensionList := list (Z * ExtensionInfo).

Definition getExtensions_at (manager_path : string) (extensions : ExtensionList)
    : M (Status * ExtensionList) :=
  status ← extensionPathActive manager_path false;
  if negb (ok status) then mret (status, extensions) else
  snap ← now;
  emit (EvRpc manager_path "extensions") ;;
  match sn_extensions snap manager_path with
  | inl what => mret (call_failed what, extensions)
  | inr ext_list =>
      let extensions :=
        map_set 0 (mkExtensionInfo "core" kVersion "0.0.0" kSDKVersion) extensions in
      let extensions :=
        fold_left (fun acc ext =>
          map_set ext.1 (mkExtensionInfo (ei_name ext.2) (ei_version ext.2)
                           (ei_min_sdk_version ext.2) (ei_sdk_version ext.2)) acc)
          ext_list extensions in
      mret (mkStatus 0 "OK", extensions)
  end.


Definition callExtension_at (extension_path registry item : string) (request : Row)
    (response : list Row) : M (Status * list Row) :=
  status ← extensionPathActive extension_path false;
  if negb (ok status) then mret (status, response) else
  snap ← now;
  emit (EvRpc extension_path "call") ;;
  match sn_call snap extension_path registry item request with
  | inl what => mret (call_failed what, response)
  | inr ext_response =>
      let response :=
        if es_code (er_status ext_response) =? EXT_SUCCESS
        then response ++ er_response ext_response else response in
      mret (of_ext_status (er_status ext_response), response)
  end.

Definition callExtension (uuid : Z) (registry item : string) (request : Row)
    (response : list Row) : M (Status * list Row) :=
  if FLAGS_disable_extensions flags then mret (disabled_status, response)
  else callExtension_at (getExtensionSocket uuid) registry item request response.

(* ------------------------------------------------------------------ *)
(** ** Manager bootstrap *)

Definition socketWritable (path : string) : M Status :=
  snap ← now;
  if sn_pathExists snap path then
    if negb (sn_isWritable snap path) then
      mret (mkStatus 1 ("Cannot write extension socket: " ++ path)) else
    emit (EvRemove path) ;;
    if negb (sn_remove snap path) then
      mret (mkStatus 1 ("Cannot remove extension socket: " ++ path))
    else mret (mkStatus 0 "OK")
  else if negb (sn_pathExists snap (parent_path path)) then
    mret (mkStatus 1 ("Extension socket directory missing: " ++ path))
  else if negb (sn_isWritable snap (parent_path path)) then
    mret (mkStatus 1 ("Cannot create extension socket: " ++ path))
  else mret (mkStatus 0 "OK").




(** Modelled from the spec: [osquery::split] (osquery/core/conversions,
    not part of this file) on the "comma-separated" list of names. *)
Definition split_on (d : ascii) (s : string) : list string :=
  let fix go (l : list ascii) (cur : list ascii) :=
    match l with
    | [] => [string_of_list_ascii (rev cur)]
    | c :: r => if Ascii.eqb c d then string_of_list_ascii (rev cur) :: go r []
                else go r (c :: cur)
    end in
  go (list_ascii_of_string s) [].



End Code.

(* ------------------------------------------------------------------ *)
(** ** [ExtensionManagerWatcher::watch]: the failure ledger *)

Module ManagerWatcher.

(** The [#ifdef WIN32] (named pipe) and the socket-file branches. *)
Inductive Platform := Posix | Win32.

(** What the collaborators answer for an extension UUID during one tick. *)
Record TickEnv := mkTickEnv {
  (** [isWritable(getExtensionSocket(uuid))] *)
  te_writable : Z -> bool;
  (** [extensionPathActive(path, true)] converted to [bool] *)
  te_active_wait : Z -> bool;
  (** [EXClient(path).ping(status)]: [None] when the client throws *)
  te_ping : Z -> option Z;
  (** [namedPipeExists(path).ok()] *)
  te_pipe_exists : Z -> bool }.

(** [failures_]: a [std::map<RouteUUID, size_t>].  [failures_[uuid]]
    reads 0 for an absent key, which is stdpp's [!!!] on [nat]. *)
Abbreviation Ledger := (gmap Z nat).

(** The body of the [for (const auto& uuid : uuids)] loop. *)
Definition watch_uuid (plat : Platform) (env : TickEnv) (failures : Ledger)
    (uuid : Z) : Ledger :=
  match plat with
  | Win32 =>
      if te_pipe_exists env uuid then failures
      else <[uuid := (failures !!! uuid + 1)%nat]> failures
  | Posix =>
      let writable := te_writable env uuid in
      (* [!writable && failures_[uuid] == 0]: the lookup inserts a 0 that
         the next assignment overwrites *)
      let writable :=
        if negb writable && (failures !!! uuid =? 0)%nat
        then te_active_wait env uuid else writable in
      let failures := <[uuid := 1%nat]> failures in
      if writable then
        match te_ping env uuid with
        | None => <[uuid := (failures !!! uuid + 1)%nat]> failures
        | Some status_code =>
            if status_code =? EXT_SUCCESS then <[uuid := 1%nat]> failures
            else <[uuid := (failures !!! uuid + 1)%nat]> failures
        end
      else <[uuid := (failures !!! uuid + 1)%nat]> failures
  end.

(** The closing pass: every entry above 1 is removed from the registry
    broadcast ([Registry::removeBroadcast]) and reset to 1. *)
Definition removed (failures : Ledger) : gset Z :=
  dom (filter (fun kv => 1 < kv.2)%nat failures).

Definition reset (failures : Ledger) : Ledger :=
  (fun n => if (1 <? n)%nat then 1%nat else n) <$> failures.

(** One call of [watch()] over the snapshot [uuids] of
    [Registry::routeUUIDs()]: the new ledger and the UUIDs deregistered. *)
Definition watch (plat : Platform) (env : TickEnv) (uuids : list Z)
    (failures : Ledger) : Ledger * gset Z :=
  let failures := fold_left (watch_uuid plat env) uuids failures in
  (reset failures, removed failures).

(** Ledgers the watcher thread can hold between two ticks. *)
Inductive reachable (plat : Platform) : Ledger -> Prop :=
| reachable_init : reachable plat ∅
| reachable_tick env uuids failures :
    reachable plat failures -> reachable plat (watch plat env uuids failures).1.

(** Spec-side reading of "the probe of [uuid] failed in this tick" on the
    socket-file branch, given the ledger entry before the tick. *)
Definition probe_failed (env : TickEnv) (before : nat) (uuid : Z) : bool :=
  let writable :=
    te_writable env uuid || ((before =? 0)%nat && te_active_wait env uuid) in
  negb (writable && bool_decide (te_ping env uuid = Some EXT_SUCCESS)).

End ManagerWatcher.

(* ------------------------------------------------------------------ *)
(** ** Autoload vetting *)

Module Autoload.

(** [boost::trim]: [trim_right] then [trim_left], white space as
    [std::isspace] in the classic locale. *)
Definition trim_left_l (l : list ascii) : list ascii :=
  let fix go l := match l with
                  | c :: r => if is_space c then go r else l
                  | [] => []
                  end in go l.

Definition trim_right_l (l : list ascii) : list ascii :=
  rev (trim_left_l (rev l)).

Definition trim (s : string) : string :=
  string_of_list_ascii (trim_left_l (trim_right_l (list_ascii_of_string s))).

(** The platform picks the suffixes of [kExtendables]. *)
Inductive Os := Linux | Apple | Windows.

(** [enum ExtenableTypes { EXTENSION = 1, MODULE = 2 }] *)
Inductive ExtenableTypes := EXTENSION | MODULE.

Definition MODULE_EXTENSION (os : Os) : string :=
  match os with Apple => ".dylib" | Windows => ".dll" | Linux => ".so" end.

Definition EXT_EXTENSION (os : Os) : string :=
  match os with Windows => ".exe" | _ => ".ext" end.

Definition kExtendables (os : Os) (type : ExtenableTypes) : string :=
  match type with EXTENSION => EXT_EXTENSION os | MODULE => MODULE_EXTENSION os end.

Section Vetting.

Variable os : Os.
(** [boost::filesystem::path]'s [parent_path().string()] and
    [extension().string()] of the build platform: on Windows boost also
    splits on ['\\'] and keeps drive root names, so the decomposition
    is a parameter of the vetting. *)
Variable fs_parent_path : string -> string.
Variable fs_extension : string -> string.
(** Filesystem collaborators: [isDirectory(path).ok()],
    [safePermissions(dir, path, executable)] and [readFile]. *)
Variable isDirectory : string -> bool.
Variable safePermissions : string -> string -> bool -> bool.
Variable readFile : string -> option string.

Definition first_char (s : string) : option ascii :=
  match s with String c _ => Some c | EmptyString => None end.

(** [isFileSafe(path, type)]: the verdict and the sanitized [path]
    (the argument is taken by reference and overwritten). *)
Definition isFileSafe (path : string) (type : ExtenableTypes) : bool * string :=
  let path := trim path in
  if bool_decide (path = "") || bool_decide (first_char path = Some "#"%char)
     || bool_decide (first_char path = Some ";"%char) then (false, path) else
  if isDirectory path then (false, path) else
  let ext := kExtendables os type in
  let extendable := path in
  let path := path_string extendable in
  if negb (safePermissions (fs_parent_path extendable) path true) then (false, path) else
  if negb (String.eqb (fs_extension extendable) ext) then (false, path) else
  (true, path).

(** Modelled from the spec: [osquery::split(content, "\n")]
    (osquery/core/conversions, not part of this file), the file being
    "[\n]-delimited". *)
Definition split_lines (s : string) : list string := split_on "010"%char s.

(** [loadExtensions(loadfile)]: the status and the paths handed to
    [Watcher::addExtensionPath], in order. *)
Definition loadExtensions (FLAGS_extension : string) (loadfile : string)
    : Status * list string :=
  let added := if String.eqb FLAGS_extension "" then [] else [FLAGS_extension] in
  match readFile loadfile with
  | Some autoload_paths =>
      let added := fold_left (fun acc path =>
                     let '(safe, path) := isFileSafe path EXTENSION in
                     if safe then acc ++ [path] else acc)
                     (split_lines autoload_paths) added in
      (mkStatus 0 "OK", added)
  | None => (mkStatus 1 ("Failed reading: " ++ loadfile), added)
  end.

(** [loadModules(loadfile)]: the status and the paths given to a
    [RegistryModuleLoader]. *)
Definition loadModules (loadfile : string) : Status * list string :=
  match readFile loadfile with
  | Some autoload_paths =>
      let '(all_loaded, loaded) :=
        fold_left (fun (acc : bool * list string) path =>
          let '(all_loaded, loaded) := acc in
          let '(safe, path) := isFileSafe path MODULE in
          if safe then (all_loaded, loaded ++ [path]) else (false, loaded))
          (split_lines autoload_paths) (true, []) in
      (mkStatus (if all_loaded then 0 else 1) "", loaded)
  | None => (mkStatus 1 ("Failed reading: " ++ loadfile), [])
  end.

End Vetting.

(** The sanitization of [isFileSafe] before its checks. *)
Definition sanitize (line : string) : string := path_string (trim line).

End Autoload.

(* ------------------------------------------------------------------ *)
(* ------------------------------------------------------------------ *)
(** ** The extension side: watcher, registration and manager tear-down *)

Module ExtensionSide.

(** What the manager answers to the calls only an extension makes. *)
Record XSnap := mkXSnap {
  (** [EXManagerClient(path)] then [registerExtension(ext_status, info,
      broadcast)]: [inl what] when either throws *)
  xs_register : string -> ExtensionInfo -> string + ExtensionStatus;
  (** [options(options)]: the [InternalOptionList] as (name, value) pairs
      with distinct names *)
  xs_options : string -> string + list (string * string) }.

(** A default-constructed Thrift [ExtensionStatus]: every field zero. *)
Definition default_ext_status : ExtensionStatus := mkExtensionStatus 0 "" 0.

(** [options[name].value]: [operator[]] default-constructs a missing
    entry, whose value is the empty string. *)
Definition option_value (options : list (string * string)) (name : string) : string :=
  match find (fun o => String.eqb o.1 name) options with
  | Some o => o.2
  | None => ""
  end.

Definition register_failed (what : string) : Status :=
  mkStatus 1 ("Extension register failed: " ++ what).

Section Extension.

Variable flags : Flags.
Variable world : Z -> Snap.
Variable xworld : Z -> XSnap.
Variable kSDKVersion : string.
(** The exit code [exitFatal()] passes when called without argument. *)
Variable kFatalExitCode : Z.

Definition xnow : M XSnap := fun s => (xworld (clock s), s).

(** The [core_sane] check of [ExtensionWatcher::watch] on the
    socket-file branch and the [status] it leaves.  The ping does not go
    through [pingExtension]; a throw leaves [status] as constructed. *)
Definition core_probe (snap : Snap) (path : string) : M (bool * ExtensionStatus) :=
  if sn_isWritable snap path then
    if sn_connect snap path then
      emit (EvRpc path "ping") ;;
      match sn_ping snap path with
      | inl _ => mret (false, default_ext_status)
      | inr status => mret (true, status)
      end
    else mret (false, default_ext_status)
  else mret (false, default_ext_status).

(** [ExtensionWatcher::watch]: the exit codes handed to [exitFatal], in
    order. *)
Definition extension_watch (path : string) (fatal : bool) : M (list Z) :=
  snap ← now world;
  '(core_sane, status) ← core_probe snap path;
  let codes : list Z := if (core_sane : bool) then [] else [0] in
  let codes :=
    if negb (es_code status =? EXT_SUCCESS) && fatal
    then codes ++ [kFatalExitCode] else codes in
  mret codes.

(** The tear-down loop of [ExtensionManagerWatcher::start] once it is
    interrupted, over [Registry::routeUUIDs()]: a [shutdown] request to
    every extension whose client can be built; a throw skips to the next
    UUID. *)
Fixpoint manager_shutdown (uuids : list Z) : M unit :=
  match uuids with
  | [] => mret tt
  | uuid :: rest =>
      snap ← now world;
      let path := getExtensionSocket flags uuid in
      (if sn_connect snap path then emit (EvRpc path "shutdown") else mret tt) ;;
      manager_shutdown rest
  end.

(** [startExtensionWatcher(manager_path, interval, fatal)]; [interval] and
    [fatal] only configure the service that is added. *)
Definition startExtensionWatcher (manager_path : string) : M Status :=
  status ← extensionPathActive flags world manager_path true;
  if negb (ok status) then mret status else
  emit (EvAddService "ExtensionWatcher") ;;
  mret (mkStatus 0 "OK").

(** [startExtension(manager_path, name, version, min_sdk_version,
    sdk_version)].  Besides the status, the result lists the
    [Registry::setActive(registry, plugin)] calls made, in order. *)
Definition startExtension_at (manager_path name version min_sdk_version sdk_version : string)
    : M (Status * list (string * string)) :=
  status ← extensionPathActive flags world manager_path true;
  if negb (ok status) then mret (status, []) else
  let info := mkExtensionInfo name version min_sdk_version sdk_version in
  x ← xnow;
  emit (EvRpc manager_path "registerExtension") ;;
  match xs_register x manager_path info with
  | inl what => mret (register_failed what, [])
  | inr ext_status =>
      if negb (es_code ext_status =? EXT_SUCCESS)
      then mret (of_ext_status ext_status, []) else
      emit (EvRpc manager_path "options") ;;
      match xs_options x manager_path with
      | inl what => mret (register_failed what, [])
      | inr options =>
          let extension_path := getExtensionSocket_at (es_uuid ext_status) manager_path in
          status ← socketWritable world extension_path;
          if negb (ok status) then mret (status, []) else
          let active := [("config", option_value options "config_plugin");
                         ("logger", option_value options "logger_plugin");
                         ("distributed", option_value options "distributed_plugin")] in
          emit (EvAddService "ExtensionRunner") ;;
          mret (mkStatus 0 (pretty (es_uuid ext_status)), active)
      end
  end.

(** [startExtension(name, version, min_sdk_version)]: the watcher of the
    manager first, then the registration.  [Registry::setExternal()] has
    no counterpart in the model; [Status(0)] is read through its code. *)
Definition startExtension (name version min_sdk_version : string) : M Status :=
  status ← startExtensionWatcher (FLAGS_extensions_socket flags);
  if negb (ok status) then mret status else
  '(status, _) ← startExtension_at (FLAGS_extensions_socket flags) name version
                   min_sdk_version kSDKVersion;
  if negb (ok status) then mret status else mret (mkStatus 0 "OK").

(** [startExtension(name, version)]. *)
Definition startExtension2 (name version : string) : M Status :=
  startExtension name version "0.0.0".

End Extension.

End ExtensionSide.

(** ** Spec-side predicates and concrete configurations *)


(** The state in which the loop of [applyExtensionDelay] calls the
    predicate for the [n]-th time (counting from 0), when each of the
    first [n] calls neither set [stop] nor succeeded and was followed by
    one [sleepFor kExtensionInitializeLatency]; [None] when one of them
    ends the loop. *)
Fixpoint delay_after (predicate : M (bool * Status)) (n : nat) (s : St) : option St :=
  match n with
  | O => Some s
  | S n' =>
      let '((stop, status), s1) := predicate s in
      if stop || ok status then None
      else delay_after predicate n' (sleepFor kExtensionInitializeLatency s1).2
  end.

Definition sock : string := "/var/osquery/osquery.em".

Definition ok_ext_status : ExtensionStatus := mkExtensionStatus 0 "OK" 0.

(** A host where every endpoint answers and every call succeeds. *)
Definition healthy_snap : Snap :=
  mkSnap (fun _ => true) (fun _ => true) (fun _ => true)
    (fun _ => inr ok_ext_status)
    (fun _ _ => inr (mkExtensionResponse ok_ext_status [[("1", "1")]]))
    (fun _ _ => inr (mkExtensionResponse ok_ext_status [[("name", "TEXT")]]))
    (fun _ => inr [])
    (fun _ _ _ _ => inr (mkExtensionResponse ok_ext_status [[("k", "v")]]))
    (fun _ => true).

Definition flags_disabled : Flags := mkFlags true sock "3" "" "".

(** [probe-a] is registered as UUID 1 but its endpoint is gone;
    [probe-b] never registers. *)
Definition stale_snap : Snap :=
  mkSnap (fun p => String.eqb p sock) (fun p => String.eqb p sock)
    (fun p => String.eqb p sock)
    (fun _ => inr ok_ext_status)
    (fun _ _ => inr (mkExtensionResponse ok_ext_status []))
    (fun _ _ => inr (mkExtensionResponse ok_ext_status []))
    (fun _ => inr [(1, mkExtensionInfo "probe-a" "1.0.0" "0.0.0" "1.0.0")])
    (fun _ _ _ _ => inr (mkExtensionResponse ok_ext_status []))
    (fun _ => true).

Definition flags_require : Flags := mkFlags false sock "1" "" "probe-a,probe-b".


Definition flags_require_b : Flags := mkFlags false sock "1" "" "probe-b".


(** An endpoint [stale_snap] does not serve, and a flag set whose manager socket is it. *)
Definition gone : string := "/var/osquery/gone.em".
Definition flags_gone : Flags := mkFlags false gone "1" "" "".
(** An extension side where registration yields UUID 7 and the manager
    reports only a config plugin. *)
Definition xworld_ok : Z -> ExtensionSide.XSnap :=
  fun _ => ExtensionSide.mkXSnap (fun _ _ => inr (mkExtensionStatus 0 "OK" 7))
             (fun _ => inr [("config_plugin", "tls")]).

(** A predicate that fails until the clock reaches 40 ms, then succeeds. *)
Definition late_predicate : M (bool * Status) :=
  fun s => if clock s <? 40 then ((false, mkStatus 1 "pending"), s)
           else ((false, mkStatus 0 "OK"), s).

Definition tick_healthy : ManagerWatcher.TickEnv :=
  ManagerWatcher.mkTickEnv (fun _ => true) (fun _ => true) (fun _ => Some 0) (fun _ => true).

Definition tick_down : ManagerWatcher.TickEnv :=
  ManagerWatcher.mkTickEnv (fun _ => false) (fun _ => false) (fun _ => None) (fun _ => false).

(* ================================================================== *)
(** * Properties *)

Ltac unfold_M :=
  unfold mbind, M_bind, mret, M_ret, emit, now, sleepFor in *.

(* ------------------------------------------------------------------ *)
(** ** The bounded-wait prober *)

(** C8: as soon as the predicate sets [stop] or returns a success, the
    loop returns that status at once: the state is the one the predicate
    left, so there is no further sleep and no further predicate call. *)
Lemma delay_loop_exit_immediately (timeout : Z) (predicate : M (bool * Status))
    (fuel : nat) (delay : Z) (s s1 : St) (stop : bool) (status : Status) :
  predicate s = ((stop, status), s1) ->
  stop || ok status = true ->
  delay_loop timeout predicate fuel delay s = (status, s1).
Proof.
  intros Hpred Hexit. destruct fuel; simpl; unfold_M; rewrite Hpred, Hexit; reflexivity.
Qed.

(** An exit on a later iteration: after [n] calls that neither stopped
    nor succeeded, each followed by one sleep, the loop returns the
    status of the call that exits, in the state that call left. *)
Lemma delay_loop_exit_at (timeout : Z) (predicate : M (bool * Status)) (n : nat) :
  forall (fuel : nat) (delay : Z) (s s_n s1 : St) (stop : bool) (status : Status),
  delay_after predicate n s = Some s_n ->
  delay + Z.of_nat n * kExtensionInitializeLatency < timeout ->
  (n <= fuel)%nat ->
  predicate s_n = ((stop, status), s1) ->
  stop || ok status = true ->
  delay_loop timeout predicate fuel delay s = (status, s1).
Proof.
  induction n as [|n IH]; intros fuel delay s s_n s1 stop status Hafter Hlt Hfuel Hpred Hexit.
  - simpl in Hafter. injection Hafter as <-.
    eapply delay_loop_exit_immediately; eauto.
  - simpl in Hafter.
    destruct (predicate s) as [[stop0 st0] s0] eqn:Hp0.
    destruct (stop0 || ok st0) eqn:Hx0; [discriminate|].
    destruct fuel as [|fuel]; [lia|].
    simpl. unfold_M. rewrite Hp0, Hx0. simpl.
    assert (Hlt' : (delay + kExtensionInitializeLatency <? timeout) = true).
    { apply Z.ltb_lt. unfold kExtensionInitializeLatency in *. lia. }
    rewrite Hlt'.
    apply (IH fuel (delay + kExtensionInitializeLatency) _ s_n s1 stop status Hafter);
      [unfold kExtensionInitializeLatency in *; lia|lia|exact Hpred|exact Hexit].
Qed.

(** The endpoint predicate without [use_timeout] always ends the loop. *)
Lemma path_active_predicate_no_timeout (world : Z -> Snap) (path : string) (s : St) :
  exists stop status evs,
    path_active_predicate world path false s =
      ((stop, status), mkSt (clock s) (trace s ++ EvProbe path :: evs)) /\
    stop || ok status = true /\
    (evs = [] \/ evs = [EvConnect path]).
Proof.
  unfold path_active_predicate; unfold_M; simpl.
  destruct (sn_pathExists (world (clock s)) path && sn_isWritable (world (clock s)) path);
    simpl.
  - destruct (sn_connect (world (clock s)) path); simpl.
    + do 3 eexists. split; [rewrite <- app_assoc; reflexivity|]. split; [reflexivity|]. by right.
    + do 3 eexists. split; [rewrite <- app_assoc; reflexivity|]. split; [reflexivity|]. by right.
  - do 3 eexists. split; [reflexivity|]. split; [reflexivity|]. by left.
Qed.

(** C8: whichever call of the predicate first sets [stop] or succeeds
    (the [n]-th, after [n] failed calls each followed by one sleep, while
    the deadline has not passed), [applyExtensionDelay] returns that
    status in the state that call left: no further sleep and no further
    predicate call.  Hence [extensionPathActive path false] probes once
    and does not wait (the clock is unchanged and the trace holds one
    probe, no sleep). *)
Theorem applyExtensionDelay_stop_immediate (flags : Flags) (world : Z -> Snap) :
  (forall (predicate : M (bool * Status)) (s : St) (n : nat) (s_n s1 : St) (stop : bool)
          (status : Status),
      delay_after predicate n s = Some s_n ->
      Z.of_nat n * kExtensionInitializeLatency < delay_timeout (FLAGS_extensions_timeout flags) ->
      predicate s_n = ((stop, status), s1) ->
      stop || ok status = true ->
      applyExtensionDelay flags predicate s = (status, s1)) /\
  (forall (path : string) (s : St),
      exists status evs,
        extensionPathActive flags world path false s =
          (status, mkSt (clock s) (trace s ++ EvProbe path :: evs)) /\
        (evs = [] \/ evs = [EvConnect path])).
Proof.
  split.
  - intros predicate s n s_n s1 stop status Hafter Hlt Hpred Hexit.
    unfold applyExtensionDelay.
    set (T := delay_timeout (FLAGS_extensions_timeout flags)) in *.
    assert (Hn : Z.of_nat n <= T / kExtensionInitializeLatency).
    { apply Z.div_le_lower_bound; unfold kExtensionInitializeLatency in *; lia. }
    eapply (delay_loop_exit_at T predicate n); [exact Hafter|lia|lia|exact Hpred|exact Hexit].
  - intros path s.
    destruct (path_active_predicate_no_timeout world path s)
      as (stop & status & evs & Hpred & Hexit & Hevs).
    exists status, evs. split; [|exact Hevs].
    unfold extensionPathActive, applyExtensionDelay.
    eapply delay_loop_exit_immediately; eauto.
Qed.

(** The predicate fails twice, at 0 and 20 ms, and succeeds on its third
    call at 40 ms: two sleeps, then the success is returned at once. *)
Lemma applyExtensionDelay_stop_immediate_witness :
  applyExtensionDelay flags_require late_predicate (mkSt 0 []) =
    (mkStatus 0 "OK", mkSt 40 [EvSleep 20; EvSleep 20]).
Proof.
  apply (proj1 (applyExtensionDelay_stop_immediate flags_require (fun _ => stale_snap))
           late_predicate (mkSt 0 []) 2%nat (mkSt 40 [EvSleep 20; EvSleep 20])
           (mkSt 40 [EvSleep 20; EvSleep 20]) false (mkStatus 0 "OK"));
    vm_compute; reflexivity.
Defined.

(* ------------------------------------------------------------------ *)
(** ** Sanitization of autoload lines *)

Module AutoloadFacts.
Import Autoload.

(** [trim_left_l] drops a prefix of white space. *)
Lemma trim_left_l_spec (l : list ascii) :
  exists pre, l = pre ++ trim_left_l l /\
    match trim_left_l l with c :: _ => is_space c = false | [] => True end.
Proof.
  induction l as [|c r IH]; simpl.
  - exists []. auto.
  - destruct (is_space c) eqn:E.
    + destruct IH as (pre & Hl & Hh). exists (c :: pre). simpl. rewrite <- Hl. auto.
    + exists []. auto.
Qed.

Lemma trim_left_l_id (l : list ascii) :
  match l with c :: _ => is_space c = false | [] => True end -> trim_left_l l = l.
Proof. destruct l as [|c r]; simpl; [done|]. intros ->. done. Qed.

Lemma trim_left_l_idem (l : list ascii) : trim_left_l (trim_left_l l) = trim_left_l l.
Proof. apply trim_left_l_id. destruct (trim_left_l_spec l) as (? & _ & H). exact H. Qed.

(** A list whose last character is not white space. *)
Definition right_trimmed (l : list ascii) : Prop :=
  match rev l with c :: _ => is_space c = false | [] => True end.

Lemma trim_right_l_trimmed (l : list ascii) : right_trimmed (trim_right_l l).
Proof.
  unfold right_trimmed, trim_right_l. rewrite rev_involutive.
  destruct (trim_left_l_spec (rev l)) as (? & _ & H). exact H.
Qed.

Lemma trim_right_l_id (l : list ascii) : right_trimmed l -> trim_right_l l = l.
Proof.
  unfold right_trimmed, trim_right_l. intros H.
  rewrite (trim_left_l_id (rev l) H). apply rev_involutive.
Qed.

(** A suffix of a right-trimmed list is right-trimmed. *)
Lemma right_trimmed_suffix (pre l : list ascii) :
  right_trimmed (pre ++ l) -> right_trimmed l.
Proof.
  unfold right_trimmed. rewrite rev_app_distr.
  destruct (rev l); simpl; auto.
Qed.

Lemma trim_l_trimmed (l : list ascii) :
  right_trimmed (trim_left_l (trim_right_l l)) /\
  trim_left_l (trim_left_l (trim_right_l l)) = trim_left_l (trim_right_l l).
Proof.
  split; [|apply trim_left_l_idem].
  destruct (trim_left_l_spec (trim_right_l l)) as (pre & Hl & _).
  apply (right_trimmed_suffix pre). rewrite <- Hl. apply trim_right_l_trimmed.
Qed.

(** C9: the sanitization [isFileSafe] applies to an autoload line (white
    space trim, then [fs::path(path).string()]) is idempotent. *)
Theorem sanitize_idempotent (line : string) : sanitize (sanitize line) = sanitize line.
Proof.
  unfold sanitize, path_string, trim.
  rewrite list_ascii_of_string_of_list_ascii.
  destruct (trim_l_trimmed (list_ascii_of_string line)) as [Hr Hl].
  rewrite (trim_right_l_id _ Hr), Hl. reflexivity.
Qed.

End AutoloadFacts.

(* ------------------------------------------------------------------ *)
(** ** Vetting of autoload lines and loadfiles *)

Module AutoloadVetting.
Import Autoload.

(** C6: [isFileSafe] accepts a line exactly when, after the trim, it is
    not empty, starts with neither ['#'] nor [';'], is not a directory,
    its parent directory has safe permissions, and its suffix is the
    platform's suffix for the kind.  The statement holds for any
    [parent_path()] / [extension()] decomposition, so for boost's on
    POSIX and on Windows alike. *)
Theorem isFileSafe_accepts_iff (os : Os) (fs_parent_path fs_extension : string -> string)
    (isDirectory : string -> bool)
    (safePermissions : string -> string -> bool -> bool)
    (line : string) (type : ExtenableTypes) :
  (isFileSafe os fs_parent_path fs_extension isDirectory safePermissions line type).1 = true <->
  let path := trim line in
  path <> "" /\ first_char path <> Some "#"%char /\ first_char path <> Some ";"%char /\
  isDirectory path = false /\
  safePermissions (fs_parent_path path) path true = true /\
  fs_extension path = kExtendables os type.
Proof.
  unfold isFileSafe, path_string. cbn zeta.
  set (path := trim line).
  destruct (bool_decide (path = "")) eqn:E1;
    [apply bool_decide_eq_true_1 in E1; simpl; split; [discriminate|tauto]|].
  apply bool_decide_eq_false_1 in E1.
  destruct (bool_decide (first_char path = Some "#"%char)) eqn:E2;
    [apply bool_decide_eq_true_1 in E2; simpl; split; [discriminate|tauto]|].
  apply bool_decide_eq_false_1 in E2.
  destruct (bool_decide (first_char path = Some ";"%char)) eqn:E3;
    [apply bool_decide_eq_true_1 in E3; simpl; split; [discriminate|tauto]|].
  apply bool_decide_eq_false_1 in E3. simpl.
  destruct (isDirectory path) eqn:E4; [split; [discriminate|intuition congruence]|].
  destruct (safePermissions (fs_parent_path path) path true) eqn:E5;
    [|simpl; split; [discriminate|intuition congruence]].
  simpl. destruct (String.eqb_spec (fs_extension path) (kExtendables os type)); simpl.
  - tauto.
  - split; [discriminate|tauto].
Qed.

End AutoloadVetting.

Module LoadfileFacts.
Import Autoload.

Section Fs.
Variable os : Os.
Variable fs_parent_path fs_extension : string -> string.
Variable isDirectory : string -> bool.
Variable safePermissions : string -> string -> bool -> bool.
Variable readFile : string -> option string.

(** A blank or comment line, after the trim. *)
Definition blank_or_comment (line : string) : Prop :=
  trim line = "" \/ first_char (trim line) = Some "#"%char \/
  first_char (trim line) = Some ";"%char.

Lemma isFileSafe_blank_or_comment (line : string) (type : ExtenableTypes) :
  blank_or_comment line ->
  (isFileSafe os fs_parent_path fs_extension isDirectory safePermissions line type).1 = false.
Proof.
  unfold isFileSafe. cbn zeta. intros H.
  assert (Hb : bool_decide (trim line = "") || bool_decide (first_char (trim line) = Some "#"%char)
               || bool_decide (first_char (trim line) = Some ";"%char) = true).
  { rewrite !orb_true_iff.
    destruct H as [H|[H|H]]; [left; left|left; right|right];
      apply bool_decide_eq_true_2; exact H. }
  rewrite Hb. reflexivity.
Qed.

Lemma load_extensions_fold_rejected (lines acc : list string) :
  Forall (fun line => (isFileSafe os fs_parent_path fs_extension isDirectory safePermissions line EXTENSION).1 = false) lines ->
  fold_left (fun acc path =>
    let '(safe, path) := isFileSafe os fs_parent_path fs_extension isDirectory safePermissions path EXTENSION in
    if safe then acc ++ [path] else acc) lines acc = acc.
Proof.
  revert acc. induction lines as [|l r IH]; intros acc Hall; simpl; [done|].
  inversion Hall as [|? ? Hl Hr]; subst.
  destruct (isFileSafe os fs_parent_path fs_extension isDirectory safePermissions l EXTENSION) as [safe p] eqn:E.
  simpl in Hl. subst safe. apply IH, Hr.
Qed.

Lemma forallb_false_witness {A} (f : A -> bool) (l : list A) :
  forallb f l = false -> exists x, In x l /\ f x = false.
Proof.
  induction l as [|x r IH]; simpl; [discriminate|].
  destruct (f x) eqn:E; simpl.
  - intros H. destruct (IH H) as (y & Hy & Hf). eauto.
  - intros _. eauto.
Qed.

Lemma load_modules_fold_all (lines loaded : list string) (all : bool) :
  (fold_left (fun (acc : bool * list string) path =>
     let '(all_loaded, loaded) := acc in
     let '(safe, path) := isFileSafe os fs_parent_path fs_extension isDirectory safePermissions path MODULE in
     if safe then (all_loaded, loaded ++ [path]) else (false, loaded))
     lines (all, loaded)).1 =
  all && forallb (fun line => (isFileSafe os fs_parent_path fs_extension isDirectory safePermissions line MODULE).1) lines.
Proof.
  revert all loaded. induction lines as [|l r IH]; intros all loaded; simpl.
  - by rewrite andb_true_r.
  - destruct (isFileSafe os fs_parent_path fs_extension isDirectory safePermissions l MODULE) as [safe p]; simpl.
    destruct safe; rewrite IH; simpl.
    + reflexivity.
    + by rewrite andb_false_r.
Qed.

(** C7: [loadExtensions] fails exactly when the loadfile cannot be read;
    a readable loadfile of blank and comment lines succeeds and hands no
    path of its own to the supervisor (only the shell-only [--extension]
    path, when set); [loadModules] fails when the loadfile cannot be read
    and also when some line of a readable loadfile is rejected. *)
Theorem loadfile_status :
  (forall (FLAGS_extension loadfile : string),
     ok (loadExtensions os fs_parent_path fs_extension isDirectory safePermissions readFile FLAGS_extension loadfile).1
       = false <-> readFile loadfile = None) /\
  (forall (FLAGS_extension loadfile content : string),
     readFile loadfile = Some content ->
     Forall blank_or_comment (split_lines content) ->
     loadExtensions os fs_parent_path fs_extension isDirectory safePermissions readFile FLAGS_extension loadfile =
       (mkStatus 0 "OK", if String.eqb FLAGS_extension "" then [] else [FLAGS_extension])) /\
  (forall (loadfile : string),
     ok (loadModules os fs_parent_path fs_extension isDirectory safePermissions readFile loadfile).1 = false <->
     readFile loadfile = None \/
     exists content, readFile loadfile = Some content /\
       exists line, In line (split_lines content) /\
         (isFileSafe os fs_parent_path fs_extension isDirectory safePermissions line MODULE).1 = false).
Proof.
  split; [|split].
  - intros fe lf. unfold loadExtensions.
    destruct (readFile lf); simpl; [split; [discriminate|discriminate]|split; reflexivity].
  - intros fe lf content Hread Hall. unfold loadExtensions. rewrite Hread.
    rewrite load_extensions_fold_rejected; [reflexivity|].
    eapply Forall_impl; [exact Hall|]. intros l Hl. by apply isFileSafe_blank_or_comment.
  - intros lf. unfold loadModules.
    destruct (readFile lf) as [content|] eqn:Hread.
    + pose proof (load_modules_fold_all (split_lines content) [] true) as Hf.
      destruct (fold_left _ (split_lines content) (true, [])) as [all loaded].
      simpl in Hf. subst all. simpl. split.
      * intros H. right. exists content. split; [reflexivity|].
        destruct (forallb _ (split_lines content)) eqn:E; [discriminate|].
        apply forallb_false_witness in E. exact E.
      * intros [Hn|(c & Hc & line & Hin & Hl)]; [discriminate|].
        injection Hc as <-.
        assert (Hfa : forallb (fun line => (isFileSafe os fs_parent_path fs_extension isDirectory safePermissions line MODULE).1)
                        (split_lines content) = false).
        { apply Bool.not_true_iff_false. rewrite forallb_forall. intros Hall.
          rewrite (Hall line Hin) in Hl. discriminate. }
        rewrite Hfa. reflexivity.
    + simpl. split; [intros _; by left|reflexivity].
Qed.

End Fs.
End LoadfileFacts.

(* ------------------------------------------------------------------ *)
(** ** The host-side facade *)

Module FacadeFacts.

Section Facade.
Variable flags : Flags.
Variable world : Z -> Snap.

Definition endpoint_live (snap : Snap) (path : string) : bool :=
  sn_pathExists snap path && sn_isWritable snap path && sn_connect snap path.

(** The non-waiting endpoint probe: one predicate call, no sleep. *)
Lemma extensionPathActive_single (path : string) (s : St) :
  exists status evs,
    extensionPathActive flags world path false s =
      (status, mkSt (clock s) (trace s ++ evs)) /\
    ok status = endpoint_live (world (clock s)) path.
Proof.
  unfold extensionPathActive, applyExtensionDelay, endpoint_live.
  destruct (path_active_predicate_no_timeout world path s)
    as (stop & status & evs & Hpred & Hexit & _).
  exists status, (EvProbe path :: evs).
  rewrite (delay_loop_exit_immediately _ _ _ _ _ _ _ _ Hpred Hexit). split; [reflexivity|].
  revert Hpred. unfold path_active_predicate; unfold_M; simpl.
  destruct (sn_pathExists (world (clock s)) path && sn_isWritable (world (clock s)) path);
    simpl; [destruct (sn_connect (world (clock s)) path)|]; simpl;
    intros H; inversion H; subst; reflexivity.
Qed.

Lemma callExtension_at_rows (path registry item : string) (request : Row)
    (response : list Row) (s : St) :
  let '((status, response'), _) :=
    callExtension_at flags world path registry item request response s in
  (ok status = false -> response' = response) /\
  (ok status = true -> exists r,
     sn_call (world (clock s)) path registry item request = inr r /\
     es_code (er_status r) = EXT_SUCCESS /\ response' = response ++ er_response r).
Proof.
  unfold callExtension_at.
  destruct (extensionPathActive_single path s) as (st & evs & Hepa & Hok).
  unfold_M. rewrite Hepa. simpl.
  destruct (ok st) eqn:Est; simpl; [|split; intros; congruence].
  destruct (sn_call (world (clock s)) path registry item request) as [what|r] eqn:Ecall;
    simpl.
  - unfold call_failed, ok; simpl. split; intros; congruence.
  - unfold of_ext_status, ok. simpl.
    destruct (es_code (er_status r) =? EXT_SUCCESS) eqn:Ec; simpl; split.
    + unfold EXT_SUCCESS in Ec. apply Z.eqb_eq in Ec. rewrite Ec. discriminate.
    + intros _. exists r. split; [reflexivity|]. split; [by apply Z.eqb_eq|reflexivity].
    + reflexivity.
    + unfold EXT_SUCCESS in Ec. rewrite Ec. discriminate.
Qed.

(** C10: [callExtension] (by UUID or by path) appends the returned rows to
    the caller's response only when the returned code is [EXT_SUCCESS];
    on any other code, a transport error, a failed probe or disabled
    extensions the response is unchanged.  [queryExternal] appends every
    returned row before it looks at the returned status. *)
Theorem response_rows_on_status :
  (forall (path registry item : string) (request : Row) (response : list Row) (s : St),
     let '((status, response'), _) :=
       callExtension_at flags world path registry item request response s in
     (ok status = false -> response' = response) /\
     (ok status = true -> exists r,
        sn_call (world (clock s)) path registry item request = inr r /\
        es_code (er_status r) = EXT_SUCCESS /\ response' = response ++ er_response r)) /\
  (forall (uuid : Z) (registry item : string) (request : Row) (response : list Row) (s : St),
     let '((status, response'), _) :=
       callExtension flags world uuid registry item request response s in
     (ok status = false -> response' = response) /\
     (ok status = true -> exists r,
        sn_call (world (clock s)) (getExtensionSocket flags uuid) registry item request
          = inr r /\
        es_code (er_status r) = EXT_SUCCESS /\ response' = response ++ er_response r)) /\
  (forall (manager_path query : string) (results : list Row) (s : St)
          (r : ExtensionResponse),
     endpoint_live (world (clock s)) manager_path = true ->
     sn_query (world (clock s)) manager_path query = inr r ->
     (queryExternal_at flags world manager_path query results s).1 =
       (of_ext_status (er_status r), results ++ er_response r)).
Proof.
  split; [|split].
  - apply callExtension_at_rows.
  - intros uuid registry item request response s. unfold callExtension.
    destruct (FLAGS_disable_extensions flags); [unfold_M; unfold disabled_status, ok; simpl; split; intros; congruence|].
    apply callExtension_at_rows.
  - intros mp q results s r Hlive Hq. unfold queryExternal_at.
    destruct (extensionPathActive_single mp s) as (st & evs & Hepa & Hok).
    unfold_M. rewrite Hepa. simpl. rewrite Hok, Hlive. simpl. rewrite Hq. reflexivity.
Qed.

End Facade.
End FacadeFacts.

(* ------------------------------------------------------------------ *)
(** ** The manager-side failure ledger *)

Module WatcherFacts.
Import ManagerWatcher.

Lemma watch_uuid_ne (plat : Platform) (env : TickEnv) (failures : Ledger) (u v : Z) :
  v <> u -> watch_uuid plat env failures u !! v = failures !! v.
Proof.
  intros Hne. unfold watch_uuid.
  destruct plat.
  - destruct (_ && _); [destruct (te_active_wait env u)|]; cbn zeta;
      repeat (case_match; try rewrite !lookup_insert_ne by congruence);
      rewrite ?lookup_insert_ne by congruence; reflexivity.
  - destruct (te_pipe_exists env u); [reflexivity|]. by rewrite lookup_insert_ne.
Qed.

Lemma watch_uuid_posix_eq (env : TickEnv) (failures : Ledger) (u : Z) :
  watch_uuid Posix env failures u !! u =
  Some (if probe_failed env (failures !!! u) u then 2%nat else 1%nat).
Proof.
  unfold watch_uuid, probe_failed. cbn zeta.
  destruct (te_ping env u) as [c|];
    destruct (te_writable env u), (failures !!! u =? 0)%nat, (te_active_wait env u); simpl;
    try case_bool_decide; try destruct (Z.eqb_spec c EXT_SUCCESS); simplify_eq; simpl;
    rewrite ?lookup_total_insert, ?lookup_insert_eq; try reflexivity;
    (case_decide; [reflexivity|congruence]).
Qed.

Lemma watch_uuid_win32_eq (env : TickEnv) (failures : Ledger) (u : Z) :
  watch_uuid Win32 env failures u !! u =
  if te_pipe_exists env u then failures !! u else Some (failures !!! u + 1)%nat.
Proof.
  unfold watch_uuid. destruct (te_pipe_exists env u); [reflexivity|].
  by rewrite lookup_insert_eq.
Qed.

(** The entry written for [u] depends only on the entry read for [u]. *)
Lemma watch_uuid_local (plat : Platform) (env : TickEnv) (f1 f2 : Ledger) (u : Z) :
  f1 !! u = f2 !! u -> watch_uuid plat env f1 u !! u = watch_uuid plat env f2 u !! u.
Proof.
  intros H. destruct plat.
  - rewrite !watch_uuid_posix_eq, !lookup_total_alt, H. reflexivity.
  - rewrite !watch_uuid_win32_eq, !lookup_total_alt, H. reflexivity.
Qed.

Lemma watch_fold_in (plat : Platform) (env : TickEnv) (uuids : list Z)
    (failures : Ledger) (u : Z) :
  NoDup uuids -> u ∈ uuids ->
  fold_left (watch_uuid plat env) uuids failures !! u = watch_uuid plat env failures u !! u.
Proof.
  revert failures. induction uuids as [|x r IH]; intros failures Hnd Hin;
    [by apply not_elem_of_nil in Hin|].
  apply NoDup_cons in Hnd as [Hx Hnd]. simpl.
  destruct (decide (u = x)) as [->|Hne].
  - assert (Hout : forall f, x ∉ r -> fold_left (watch_uuid plat env) r f !! x = f !! x).
    { clear IH Hin Hx Hnd. induction r as [|y r' IHr]; intros f Hn; [reflexivity|].
      simpl. apply not_elem_of_cons in Hn as [Hy Hn]. rewrite IHr by done.
      apply watch_uuid_ne. congruence. }
    by apply Hout.
  - apply elem_of_cons in Hin as [->|Hin]; [done|].
    rewrite IH by done. apply watch_uuid_local. by apply watch_uuid_ne.
Qed.

Lemma watch_fold_out (plat : Platform) (env : TickEnv) (uuids : list Z)
    (failures : Ledger) (u : Z) :
  u ∉ uuids -> fold_left (watch_uuid plat env) uuids failures !! u = failures !! u.
Proof.
  revert failures. induction uuids as [|x r IH]; intros failures Hn; [reflexivity|].
  simpl. apply not_elem_of_cons in Hn as [Hx Hn]. rewrite IH by done.
  apply watch_uuid_ne. congruence.
Qed.

Lemma removed_spec (failures : Ledger) (u : Z) :
  u ∈ removed failures <-> exists n, failures !! u = Some n /\ (1 < n)%nat.
Proof.
  unfold removed. rewrite elem_of_dom. split.
  - intros [n Hn]. apply map_lookup_filter_Some in Hn as [Hn Hp]. eauto.
  - intros (n & Hn & Hp). exists n. apply map_lookup_filter_Some. auto.
Qed.

Lemma reset_lookup (failures : Ledger) (u : Z) :
  reset failures !! u = (fun n => if (1 <? n)%nat then 1%nat else n) <$> failures !! u.
Proof. unfold reset. apply lookup_fmap. Qed.

(** Every entry written by one step is at least 1, if all were before. *)
Lemma watch_uuid_pos (plat : Platform) (env : TickEnv) (failures : Ledger) (u : Z) :
  (forall v n, failures !! v = Some n -> (1 <= n)%nat) ->
  forall v n, watch_uuid plat env failures u !! v = Some n -> (1 <= n)%nat.
Proof.
  intros Hall v n Hv. destruct (decide (v = u)) as [->|Hne].
  - destruct plat.
    + rewrite watch_uuid_posix_eq in Hv. injection Hv as <-. destruct (probe_failed _ _ _); lia.
    + rewrite watch_uuid_win32_eq in Hv. destruct (te_pipe_exists env u).
      * eauto.
      * injection Hv as <-. lia.
  - rewrite watch_uuid_ne in Hv by done. eauto.
Qed.

Lemma watch_fold_pos (plat : Platform) (env : TickEnv) (uuids : list Z) (failures : Ledger) :
  (forall v n, failures !! v = Some n -> (1 <= n)%nat) ->
  forall v n, fold_left (watch_uuid plat env) uuids failures !! v = Some n -> (1 <= n)%nat.
Proof.
  revert failures. induction uuids as [|x r IH]; intros failures Hall; simpl; [done|].
  apply IH. by apply watch_uuid_pos.
Qed.

(** Between ticks every entry of the ledger is exactly 1. *)
Lemma reachable_entries_one (plat : Platform) (failures : Ledger) :
  reachable plat failures -> forall u n, failures !! u = Some n -> n = 1%nat.
Proof.
  induction 1 as [|env uuids failures Hr IH]; intros u n Hu.
  - by rewrite lookup_empty in Hu.
  - unfold watch in Hu. simpl in Hu. rewrite reset_lookup in Hu.
    destruct (fold_left (watch_uuid plat env) uuids failures !! u) as [m|] eqn:Em;
      [|discriminate].
    simpl in Hu. injection Hu as <-.
    assert (Hm : (1 <= m)%nat).
    { eapply watch_fold_pos; [|exact Em]. intros v k Hv. rewrite (IH v k Hv). lia. }
    destruct (Nat.ltb_spec 1 m); lia.
Qed.

(** C3: after every completed tick each ledger entry is at least 1 (and
    never above 1); an entry above 1 exists only inside a tick, and the
    closing pass deregisters its UUID and sets it back to 1. *)
Theorem ledger_entries_at_least_one (plat : Platform) (failures : Ledger) :
  reachable plat failures ->
  (forall u n, failures !! u = Some n -> (1 <= n)%nat /\ ~ (1 < n)%nat) /\
  (forall env uuids u n,
     fold_left (watch_uuid plat env) uuids failures !! u = Some n -> (1 < n)%nat ->
     u ∈ (watch plat env uuids failures).2 /\ (watch plat env uuids failures).1 !! u = Some 1%nat).
Proof.
  intros Hr. split.
  - intros u n Hu. rewrite (reachable_entries_one plat failures Hr u n Hu). lia.
  - intros env uuids u n Hn Hgt. unfold watch. simpl. split.
    + apply removed_spec. eauto.
    + rewrite reset_lookup, Hn. simpl. destruct (Nat.ltb_spec 1 n); [reflexivity|lia].
Qed.

(** C1 (as amended): between ticks every ledger entry is 1, and a UUID
    is deregistered at the end of a tick exactly when it is in that
    tick's snapshot and, on the socket-file branch, its probe failed in
    that very tick (one failed tick suffices); on the named-pipe branch,
    its pipe is missing and an earlier tick left an entry in the ledger. *)
Theorem watch_deregisters_after_failed_probe (plat : Platform) (env : TickEnv)
    (uuids : list Z) (failures : Ledger) (u : Z) :
  reachable plat failures -> NoDup uuids ->
  (forall v n, failures !! v = Some n -> n = 1%nat) /\
  (u ∈ (watch plat env uuids failures).2 <->
   u ∈ uuids /\
   match plat with
   | Posix => probe_failed env (failures !!! u) u = true
   | Win32 => te_pipe_exists env u = false /\ is_Some (failures !! u)
   end).
Proof.
  intros Hr Hnd. split; [exact (reachable_entries_one plat failures Hr)|].
  unfold watch. simpl. rewrite removed_spec.
  pose proof (reachable_entries_one plat failures Hr u) as Hone.
  destruct (decide (u ∈ uuids)) as [Hin|Hout].
  - rewrite (watch_fold_in plat env uuids failures u Hnd Hin). destruct plat.
    + rewrite watch_uuid_posix_eq.
      destruct (probe_failed env (failures !!! u) u); split.
      * intros _. done.
      * intros _. exists 2%nat. split; [reflexivity|lia].
      * intros (n & Hn & Hgt). injection Hn as <-. lia.
      * intros [_ H]. discriminate.
    + rewrite watch_uuid_win32_eq.
      destruct (te_pipe_exists env u); split.
      * intros (n & Hn & Hgt). rewrite (Hone n Hn) in Hgt. lia.
      * intros [_ [H _]]. discriminate.
      * intros (n & Hn & Hgt). injection Hn as <-. split; [done|]. split; [done|].
        rewrite lookup_total_alt in Hgt.
        destruct (failures !! u); [done|]. simpl in Hgt. lia.
      * intros [_ [_ [m Hm]]]. exists (failures !!! u + 1)%nat. split; [reflexivity|].
        rewrite lookup_total_alt, Hm, (Hone m Hm). simpl. lia.
  - rewrite (watch_fold_out plat env uuids failures u Hout). split.
    + intros (n & Hn & Hgt). rewrite (Hone n Hn) in Hgt. lia.
    + intros [Hin _]. contradiction.
Qed.

(** C1 counterexample: after a healthy tick the entry of UUID 42 is 1;
    a single following tick in which its endpoint is not writable already
    deregisters it. *)
Lemma single_failed_tick_deregisters :
  let failures := (watch Posix tick_healthy [42] ∅).1 in
  (42 ∉ (watch Posix tick_healthy [42] ∅).2) /\
  failures = {[42 := 1%nat]} /\
  42 ∈ (watch Posix tick_down [42] failures).2.
Proof.
  cbn zeta. split; [|split].
  - apply (bool_decide_eq_true_1 _). vm_compute. reflexivity.
  - apply (bool_decide_eq_true_1 _). vm_compute. reflexivity.
  - apply (bool_decide_eq_true_1 _). vm_compute. reflexivity.
Qed.

Lemma ledger_entries_at_least_one_witness :
  exists n, (watch Posix tick_down [42] ∅).1 !! 42 = Some n /\ (1 <= n)%nat /\ ~ (1 < n)%nat.
Proof.
  exists 1%nat. split; [vm_compute; reflexivity|].
  apply (proj1 (ledger_entries_at_least_one Posix (watch Posix tick_down [42] ∅).1
                  (reachable_tick Posix tick_down [42] ∅ (reachable_init Posix))) 42 1%nat).
  vm_compute. reflexivity.
Defined.

(** A second tick on each branch, from the ledger an earlier tick left:
    on sockets UUID 42 was healthy (entry 1) and fails once; on named
    pipes its pipe was already missing (entry 1) and is missing again. *)
Lemma watch_deregisters_after_failed_probe_witness :
  (let failures := (watch Posix tick_healthy [42] ∅).1 in
   failures !! 42 = Some 1%nat /\ 42 ∈ (watch Posix tick_down [42] failures).2) /\
  (let failures := (watch Win32 tick_down [42] ∅).1 in
   failures !! 42 = Some 1%nat /\ 42 ∈ (watch Win32 tick_down [42] failures).2).
Proof.
  cbn zeta. split.
  - destruct (watch_deregisters_after_failed_probe Posix tick_down [42]
                (watch Posix tick_healthy [42] ∅).1 42
                (reachable_tick Posix tick_healthy [42] ∅ (reachable_init Posix))
                (NoDup_singleton 42)) as [_ Hiff].
    split; [vm_compute; reflexivity|].
    apply Hiff. split; [left|vm_compute; reflexivity].
  - destruct (watch_deregisters_after_failed_probe Win32 tick_down [42]
                (watch Win32 tick_down [42] ∅).1 42
                (reachable_tick Win32 tick_down [42] ∅ (reachable_init Win32))
                (NoDup_singleton 42)) as [_ Hiff].
    assert (Hin : (watch Win32 tick_down [42] ∅).1 !! 42 = Some 1%nat)
      by (vm_compute; reflexivity).
    split; [exact Hin|].
    apply Hiff. split; [left|split; [reflexivity|exists 1%nat; exact Hin]].
Defined.

End WatcherFacts.

(* ------------------------------------------------------------------ *)
(** ** The disabled-extensions gate of the facade *)

Module DisableFacts.

(** C2 (code bug): with [disable_extensions] set, [queryExternal] and
    [getQueryColumnsExternal] still probe the manager endpoint and make
    their RPC, while [pingExtension] fails at once. *)
Theorem queryExternal_ignores_disable_extensions :
  queryExternal flags_disabled (fun _ => healthy_snap) "select 1" [] (mkSt 0 []) =
    ((mkStatus 0 "OK", [[("1", "1")]]),
     mkSt 0 [EvProbe sock; EvConnect sock; EvRpc sock "query"]) /\
  getQueryColumnsExternal flags_disabled (fun _ => healthy_snap) (fun _ => 0)
    "select 1" [] (mkSt 0 []) =
    ((mkStatus 0 "OK", [("name", 0, 0)]),
     mkSt 0 [EvProbe sock; EvConnect sock; EvRpc sock "getQueryColumns"]) /\
  pingExtension flags_disabled (fun _ => healthy_snap) sock (mkSt 0 []) =
    (disabled_status, mkSt 0 []).
Proof. split; [|split]; vm_compute; reflexivity. Qed.

End DisableFacts.

(* ------------------------------------------------------------------ *)
(** ** The deadline of the bounded-wait prober *)

Module DelayFacts.

Lemma delay_timeout_floor (flag : string) : 200 <= delay_timeout flag.
Proof.
  unfold delay_timeout, kExtensionInitializeLatency.
  destruct (Z.ltb_spec (to_size_t (wrap_int (atoi flag * 1000))) (20 * 10)); lia.
Qed.

Section Calls.
(** A predicate that never succeeds, never sets [stop], and leaves one
    [marker] in the trace per call. *)
Variable marker : Event.
Variable failure : Status.
Variable predicate : M (bool * Status).
Hypothesis predicate_fails :
  forall s, predicate s = ((false, failure), mkSt (clock s) (trace s ++ [marker])).
Hypothesis failure_not_ok : ok failure = false.
Hypothesis marker_not_sleep : forall ms, marker <> EvSleep ms.

Lemma count_event_same (e : Event) (l : list Event) :
  count_event e (e :: l) = S (count_event e l).
Proof. unfold count_event. rewrite filter_cons, bool_decide_eq_true_2 by done. done. Qed.

Lemma count_event_other (e x : Event) (l : list Event) :
  x <> e -> count_event e (x :: l) = count_event e l.
Proof. intros H. unfold count_event. rewrite filter_cons, bool_decide_eq_false_2 by done. done. Qed.

Lemma delay_loop_extends (timeout : Z) (fuel : nat) (delay : Z) (s : St) :
  exists evs, trace (delay_loop timeout predicate fuel delay s).2 = trace s ++ evs.
Proof.
  revert delay s. induction fuel as [|fuel IH]; intros delay s; simpl; unfold_M;
    rewrite predicate_fails, failure_not_ok; simpl.
  - destruct (_ <? timeout); simpl; eexists; by rewrite <- !app_assoc.
  - destruct (_ <? timeout); simpl.
    + destruct (IH (delay + kExtensionInitializeLatency)
                  (mkSt (clock s + kExtensionInitializeLatency)
                        ((trace s ++ [marker]) ++ [EvSleep kExtensionInitializeLatency])))
        as [evs Hevs].
      rewrite Hevs. simpl. eexists. by rewrite <- !app_assoc.
    + eexists. by rewrite <- !app_assoc.
Qed.

Lemma delay_loop_calls (timeout : Z) (n fuel : nat) (delay : Z) (s : St) :
  (n <= fuel)%nat -> delay + kExtensionInitializeLatency * Z.of_nat n < timeout ->
  exists evs, trace (delay_loop timeout predicate fuel delay s).2 = trace s ++ evs /\
    (S n <= count_event marker evs)%nat.
Proof.
  revert fuel delay s. induction n as [|n IH]; intros fuel delay s Hn Hd.
  - destruct fuel as [|fuel]; simpl; unfold_M; rewrite predicate_fails, failure_not_ok;
      simpl.
    + destruct (_ <? timeout); simpl; eexists; (split; [by rewrite <- !app_assoc|]);
        cbn [app]; rewrite count_event_same; lia.
    + destruct (_ <? timeout); simpl.
      * destruct (delay_loop_extends timeout fuel (delay + kExtensionInitializeLatency)
                    (mkSt (clock s + kExtensionInitializeLatency)
                       ((trace s ++ [marker]) ++ [EvSleep kExtensionInitializeLatency])))
          as [evs' Hevs'].
        rewrite Hevs'. simpl.
        exists (marker :: EvSleep kExtensionInitializeLatency :: evs').
        split; [by rewrite <- !app_assoc|].
        cbn [app]; rewrite count_event_same; lia.
      * eexists; (split; [by rewrite <- !app_assoc|]).
        cbn [app]; rewrite count_event_same; lia.
  - destruct fuel as [|fuel]; [lia|]. simpl. unfold_M.
    rewrite predicate_fails, failure_not_ok. simpl.
    assert (Hlt : (delay + kExtensionInitializeLatency <? timeout) = true)
      by (apply Z.ltb_lt; unfold kExtensionInitializeLatency in *; lia).
    rewrite Hlt.
    destruct (IH fuel (delay + kExtensionInitializeLatency)
                (mkSt (clock s + kExtensionInitializeLatency)
                   ((trace s ++ [marker]) ++ [EvSleep kExtensionInitializeLatency])))
      as (evs & Hevs & Hc); [lia|unfold kExtensionInitializeLatency in *; lia|].
    rewrite Hevs. simpl.
    exists (marker :: EvSleep kExtensionInitializeLatency :: evs).
    split; [by rewrite <- !app_assoc|].
    rewrite count_event_same, count_event_other
      by (intros H; by apply (marker_not_sleep kExtensionInitializeLatency)).
    lia.
Qed.

End Calls.

(** C4 (code bug): whatever the flag, a predicate that never succeeds
    and never stops is called at least 10 times; but the deadline is not
    [max(T * 1000, 200)] ms: for [T = -1] the [int] product [-1000] turns
    into a [size_t] of 2^64 - 1000 ms, and for [T = 4294968] the [int]
    product wraps to 704 ms. *)
Theorem delay_deadline_wraps :
  (forall (flags : Flags) (marker : Event) (failure : Status)
          (predicate : M (bool * Status)) (s : St),
     (forall s, predicate s = ((false, failure), mkSt (clock s) (trace s ++ [marker]))) ->
     ok failure = false -> (forall ms, marker <> EvSleep ms) ->
     exists evs, trace (applyExtensionDelay flags predicate s).2 = trace s ++ evs /\
       (10 <= count_event marker evs)%nat) /\
  delay_timeout "-1" = 18446744073709550616 /\
  delay_timeout "4294968" = 704.
Proof.
  split; [|split; reflexivity].
  intros flags marker failure predicate s Hp Hf Hm.
  unfold applyExtensionDelay.
  pose proof (delay_timeout_floor (FLAGS_extensions_timeout flags)) as Hfl.
  set (T := delay_timeout (FLAGS_extensions_timeout flags)) in *.
  assert (Hfuel : (9 <= Z.to_nat (T / kExtensionInitializeLatency))%nat).
  { unfold kExtensionInitializeLatency.
    assert (10 <= T / 20) by (apply Z.div_le_lower_bound; lia). lia. }
  destruct (delay_loop_calls marker failure predicate Hp Hf Hm T 9 _ 0 s Hfuel)
    as (evs & Hevs & Hc); [unfold kExtensionInitializeLatency; lia|].
  exists evs. split; [exact Hevs|lia].
Qed.

End DelayFacts.


(* ------------------------------------------------------------------ *)
(** ** The required-extension gate of the manager bootstrap *)

Module GateFacts.

Section Gate.
Variable flags : Flags.
Variable world : Z -> Snap.
Variable kVersion kSDKVersion : string.








End Gate.



End GateFacts.

Module TraceFacts.

(** [m] only appends events satisfying [P] and leaves the clock alone
    unless [P] allows sleeps. *)
Definition extends_by (P : Event -> Prop) {A} (m : M A) : Prop :=
  forall s, exists evs, trace (m s).2 = trace s ++ evs /\ Forall P evs.

Section Ext.
Variable P : Event -> Prop.

Lemma extends_ret {A} (x : A) : extends_by P (mret x).
Proof. intros s. exists []. split; [by rewrite app_nil_r|constructor]. Qed.

Lemma extends_bind {A B} (m : M A) (f : A -> M B) :
  extends_by P m -> (forall x, extends_by P (f x)) -> extends_by P (m ≫= f).
Proof.
  intros Hm Hf s. unfold mbind, M_bind. destruct (Hm s) as (e1 & H1 & F1).
  destruct (m s) as [x s1] eqn:E. simpl in H1.
  destruct (Hf x s1) as (e2 & H2 & F2). exists (e1 ++ e2).
  split; [rewrite H2, H1, app_assoc; reflexivity|by apply Forall_app].
Qed.

Lemma extends_emit (e : Event) : P e -> extends_by P (emit e).
Proof. intros He s. exists [e]. split; [reflexivity|by constructor]. Qed.

Lemma extends_sleep (ms : Z) : P (EvSleep ms) -> extends_by P (sleepFor ms).
Proof. intros He s. exists [EvSleep ms]. split; [reflexivity|by constructor]. Qed.

Lemma extends_now (world : Z -> Snap) : extends_by P (now world).
Proof. intros s. exists []. split; [by rewrite app_nil_r|constructor]. Qed.

End Ext.

Ltac extends_solve :=
  repeat match goal with
  | |- extends_by _ (mbind _ _) => apply extends_bind; [|intros ?]
  | |- extends_by _ (mret _) => apply extends_ret
  | |- extends_by _ (emit _) => apply extends_emit
  | |- extends_by _ (sleepFor _) => apply extends_sleep
  | |- extends_by _ (now _) => apply extends_now
  | |- extends_by _ (if ?b then _ else _) => destruct b
  | |- extends_by _ (match ?x with _ => _ end) => destruct x
  | |- extends_by _ (let '(_, _) := ?p in _) => destruct p
  end.

Lemma delay_loop_extends_by P (timeout : Z) (predicate : M (bool * Status)) :
  extends_by P predicate -> P (EvSleep kExtensionInitializeLatency) ->
  forall fuel delay, extends_by P (delay_loop timeout predicate fuel delay).
Proof.
  intros Hp Hs fuel. induction fuel as [|fuel IH]; intros delay; simpl;
    extends_solve; auto.
Qed.

Lemma extensionPathActive_extends_by P flags world (path : string) (use_timeout : bool) :
  P (EvProbe path) -> P (EvConnect path) -> P (EvSleep kExtensionInitializeLatency) ->
  extends_by P (extensionPathActive flags world path use_timeout).
Proof.
  intros H1 H2 H3. unfold extensionPathActive, applyExtensionDelay.
  apply delay_loop_extends_by; [|done].
  unfold path_active_predicate. extends_solve; auto.
Qed.

End TraceFacts.

(** The clock, status and trace of one [socketWritable] call. *)
Lemma socketWritable_effect (world : Z -> Snap) (path : string) (s : St) :
  let snap := world (clock s) in
  let '(status, s1) := socketWritable world path s in
  clock s1 = clock s /\
  (ok status = true <->
     if sn_pathExists snap path
     then sn_isWritable snap path && sn_remove snap path = true
     else sn_pathExists snap (parent_path path) && sn_isWritable snap (parent_path path) = true) /\
  trace s1 = trace s ++
    (if sn_pathExists snap path && sn_isWritable snap path then [EvRemove path] else []).
Proof.
  simpl. unfold socketWritable. unfold_M. simpl.
  destruct (sn_pathExists (world (clock s)) path); simpl.
  - destruct (sn_isWritable (world (clock s)) path); simpl.
    + destruct (sn_remove (world (clock s)) path); simpl; unfold ok; simpl;
        repeat split; try reflexivity; try discriminate.
    + unfold ok; simpl. repeat split; try reflexivity; try discriminate.
      by rewrite app_nil_r.
  - destruct (sn_pathExists (world (clock s)) (parent_path path)); simpl;
    [destruct (sn_isWritable (world (clock s)) (parent_path path)); simpl|];
    unfold ok; simpl; repeat split; try reflexivity; try discriminate;
    by rewrite app_nil_r.
Qed.

(** [extensionPathActive] without timeout, in closed form. *)
Lemma extensionPathActive_single_probe (flags : Flags) (world : Z -> Snap) (path : string) (s : St) :
  exists evs,
    extensionPathActive flags world path false s =
      (if FacadeFacts.endpoint_live (world (clock s)) path then mkStatus 0 "OK"
       else not_available path, mkSt (clock s) (trace s ++ evs)) /\
    Forall (fun e => e = EvProbe path \/ e = EvConnect path) evs.
Proof.
  unfold extensionPathActive, applyExtensionDelay, FacadeFacts.endpoint_live.
  destruct (sn_pathExists (world (clock s)) path && sn_isWritable (world (clock s)) path)
    eqn:Epw; simpl.
  - destruct (sn_connect (world (clock s)) path) eqn:Ec; simpl.
    + exists [EvProbe path; EvConnect path]. split; [|repeat (constructor; [first [left; reflexivity|right; reflexivity]|]); constructor].
      erewrite (delay_loop_exit_immediately _ _ _ _ _ _ false); [reflexivity| |reflexivity].
      unfold path_active_predicate. unfold_M. simpl. rewrite Epw. simpl. rewrite Ec.
      simpl. by rewrite <- app_assoc.
    + exists [EvProbe path; EvConnect path]. split; [|repeat (constructor; [first [left; reflexivity|right; reflexivity]|]); constructor].
      erewrite (delay_loop_exit_immediately _ _ _ _ _ _ true); [reflexivity| |reflexivity].
      unfold path_active_predicate. unfold_M. simpl. rewrite Epw. simpl. rewrite Ec.
      simpl. by rewrite <- app_assoc.
  - exists [EvProbe path]. split; [|repeat (constructor; [first [left; reflexivity|right; reflexivity]|]); constructor].
    erewrite (delay_loop_exit_immediately _ _ _ _ _ _ true); [reflexivity| |reflexivity].
    unfold path_active_predicate. unfold_M. simpl. rewrite Epw. reflexivity.
Qed.


Ltac dead_endpoint_step Hdead :=
  match goal with
  | |- context [extensionPathActive ?f ?w ?p false ?s] =>
      let evs := fresh "evs" in let Heq := fresh "Heq" in let Hf := fresh "Hf" in
      destruct (extensionPathActive_single_probe f w p s) as (evs & Heq & Hf);
      rewrite Heq, Hdead; simpl; exists evs; split; [reflexivity|exact Hf]
  end.

(** X3: when the endpoint is not live, [queryExternal],
    [getQueryColumnsExternal], [getExtensions], [callExtension] and
    (with extensions enabled) [pingExtension] return the not-available
    status, leave their output argument untouched, send no RPC and do
    not wait. *)
Theorem facade_dead_endpoint (flags : Flags) (world : Z -> Snap)
    (kVersion kSDKVersion : string) (columnTypeName : string -> Z) (path : string) (s : St) :
  FacadeFacts.endpoint_live (world (clock s)) path = false ->
  let quiet evs := Forall (fun e => e = EvProbe path \/ e = EvConnect path) evs in
  (forall query results, exists evs,
     queryExternal_at flags world path query results s =
       ((not_available path, results), mkSt (clock s) (trace s ++ evs)) /\ quiet evs) /\
  (forall query columns, exists evs,
     getQueryColumnsExternal_at flags world columnTypeName path query columns s =
       ((not_available path, columns), mkSt (clock s) (trace s ++ evs)) /\ quiet evs) /\
  (forall extensions, exists evs,
     getExtensions_at flags world kVersion kSDKVersion path extensions s =
       ((not_available path, extensions), mkSt (clock s) (trace s ++ evs)) /\ quiet evs) /\
  (forall registry item request response, exists evs,
     callExtension_at flags world path registry item request response s =
       ((not_available path, response), mkSt (clock s) (trace s ++ evs)) /\ quiet evs) /\
  (FLAGS_disable_extensions flags = false -> exists evs,
     pingExtension flags world path s =
       (not_available path, mkSt (clock s) (trace s ++ evs)) /\ quiet evs).
Proof.
  intros Hdead quiet.
  repeat split; intros *;
    unfold queryExternal_at, getQueryColumnsExternal_at, getExtensions_at,
      callExtension_at, pingExtension; unfold_M;
    [dead_endpoint_step Hdead..|].
  intros Hd. rewrite Hd. dead_endpoint_step Hdead.
Qed.

Section Bound.
Variable timeout : Z.
Variable predicate : M (bool * Status).
Hypothesis predicate_clock : forall s, clock (predicate s).2 = clock s.

Lemma ceil_step (T d : Z) : d + 20 < T -> (T - d + 19) / 20 = (T - (d + 20) + 19) / 20 + 1.
Proof.
  intros H. replace (T - d + 19) with ((T - (d + 20) + 19) + 1 * 20) by lia.
  rewrite Z.div_add; lia.
Qed.

Lemma ceil_pos (T d : Z) : d < T -> 1 <= (T - d + 19) / 20.
Proof. intros H. apply Z.div_le_lower_bound; lia. Qed.

Lemma ceil_last (T d : Z) : d < T -> T <= d + 20 -> (T - d + 19) / 20 = 1.
Proof.
  intros H1 H2. pose proof (ceil_pos T d H1).
  assert ((T - d + 19) / 20 < 2) by (apply Z.div_lt_upper_bound; lia). lia.
Qed.

Lemma delay_loop_clock_le (fuel : nat) (delay : Z) (s : St) :
  delay < timeout ->
  clock (delay_loop timeout predicate fuel delay s).2 <=
    clock s + kExtensionInitializeLatency * ((timeout - delay + 19) / 20).
Proof.
  revert delay s. induction fuel as [|fuel IH]; intros delay s Hd; simpl; unfold_M;
    pose proof (predicate_clock s) as Hc;
    destruct (predicate s) as [[stop st] s1]; simpl in Hc |- *;
    pose proof (ceil_pos timeout delay Hd); unfold kExtensionInitializeLatency in *;
    (destruct (stop || ok st); simpl; [lia|]);
    (destruct (delay + 20 <? timeout) eqn:Elt; simpl; [|lia]); [lia|].
  apply Z.ltb_lt in Elt.
  specialize (IH (delay + 20) (mkSt (clock s1 + 20) (trace s1 ++ [EvSleep 20])) Elt).
  simpl in IH. rewrite (ceil_step _ _ Elt). lia.
Qed.

Lemma delay_loop_clock_eq (st0 : Status) (fuel : nat) (delay : Z) (s : St) :
  (forall s, (predicate s).1 = (false, st0)) -> ok st0 = false ->
  delay < timeout -> (timeout - delay - 1) / 20 <= Z.of_nat fuel ->
  delay_loop timeout predicate fuel delay s =
    (st0, (delay_loop timeout predicate fuel delay s).2) /\
  clock (delay_loop timeout predicate fuel delay s).2 =
    clock s + kExtensionInitializeLatency * ((timeout - delay + 19) / 20).
Proof.
  intros Hp Hst. revert delay s. induction fuel as [|fuel IH]; intros delay s Hd Hf; simpl;
    unfold_M; pose proof (predicate_clock s) as Hc; specialize (Hp s);
    destruct (predicate s) as [[stop st] s1]; simpl in Hc, Hp |- *;
    injection Hp as -> ->; rewrite Hst; simpl; unfold kExtensionInitializeLatency in *;
    (destruct (delay + 20 <? timeout) eqn:Elt; simpl).
  - apply Z.ltb_lt in Elt.
    assert (1 <= (timeout - delay - 1) / 20) by (apply Z.div_le_lower_bound; lia). lia.
  - apply Z.ltb_ge in Elt. rewrite ceil_last by lia. split; [reflexivity|lia].
  - apply Z.ltb_lt in Elt.
    assert (Hf' : (timeout - (delay + 20) - 1) / 20 <= Z.of_nat fuel).
    { replace (timeout - delay - 1) with ((timeout - (delay + 20) - 1) + 1 * 20) in Hf by lia.
      rewrite Z.div_add in Hf by lia. lia. }
    destruct (IH (delay + 20) (mkSt (clock s1 + 20) (trace s1 ++ [EvSleep 20])) Elt Hf')
      as [IH1 IH2].
    split; [exact IH1|]. simpl in IH2. rewrite (ceil_step _ _ Elt). lia.
  - apply Z.ltb_ge in Elt. rewrite ceil_last by lia. split; [reflexivity|lia].
Qed.

End Bound.

(** X4: for a predicate that does not move the clock,
    [applyExtensionDelay] waits at most its computed deadline
    [delay_timeout] (the flag's [atoi * 1000] as a wrapped [int] stored
    in a [size_t], raised to 200 ms when below) rounded up to whole 20 ms
    latency steps. *)
Theorem applyExtensionDelay_wait_bound (flags : Flags) (predicate : M (bool * Status)) (s : St) :
  (forall s, clock (predicate s).2 = clock s) ->
  clock (applyExtensionDelay flags predicate s).2 <=
    clock s + kExtensionInitializeLatency *
      ((delay_timeout (FLAGS_extensions_timeout flags) + 19) / 20).
Proof.
  intros Hc. unfold applyExtensionDelay.
  pose proof (DelayFacts.delay_timeout_floor (FLAGS_extensions_timeout flags)).
  replace (delay_timeout (FLAGS_extensions_timeout flags) + 19)
    with (delay_timeout (FLAGS_extensions_timeout flags) - 0 + 19) by lia.
  apply delay_loop_clock_le; [exact Hc|lia].
Qed.

Lemma path_active_predicate_clock (world : Z -> Snap) (path : string) (use_timeout : bool)
    (s : St) :
  clock (path_active_predicate world path use_timeout s).2 = clock s.
Proof.
  unfold path_active_predicate. unfold_M. simpl.
  destruct (_ && _); simpl; [destruct (sn_connect _ _)|]; reflexivity.
Qed.

Lemma path_active_predicate_dead (world : Z -> Snap) (path : string) (s : St) :
  FacadeFacts.endpoint_live (world (clock s)) path = false ->
  (path_active_predicate world path true s).1 = (false, not_available path).
Proof.
  unfold FacadeFacts.endpoint_live, path_active_predicate. intros H. unfold_M. simpl.
  destruct (sn_pathExists (world (clock s)) path && sn_isWritable (world (clock s)) path)
    eqn:E; simpl; [|reflexivity].
  simpl in H. rewrite H. reflexivity.
Qed.

(** [extensionPathActive] with timeout on an endpoint that never answers. *)
Lemma extensionPathActive_dead_wait_clock (flags : Flags) (world : Z -> Snap) (path : string) (s : St) :
  (forall t, FacadeFacts.endpoint_live (world t) path = false) ->
  (extensionPathActive flags world path true s).1 = not_available path /\
  clock (extensionPathActive flags world path true s).2 =
    clock s + kExtensionInitializeLatency *
      ((delay_timeout (FLAGS_extensions_timeout flags) + 19) / 20).
Proof.
  intros Hdead. unfold extensionPathActive, applyExtensionDelay.
  pose proof (DelayFacts.delay_timeout_floor (FLAGS_extensions_timeout flags)) as Hfl.
  set (T := delay_timeout (FLAGS_extensions_timeout flags)) in *.
  destruct (delay_loop_clock_eq T (path_active_predicate world path true)
              (path_active_predicate_clock world path true) (not_available path)
              (Z.to_nat (T / kExtensionInitializeLatency)) 0 s) as [H1 H2].
  - intros s'. apply path_active_predicate_dead, Hdead.
  - reflexivity.
  - lia.
  - unfold kExtensionInitializeLatency. rewrite Z2Nat.id by (apply Z.div_pos; lia).
    apply Z.div_le_mono; lia.
  - rewrite H1. simpl. split; [reflexivity|]. rewrite H2. f_equal. f_equal. f_equal. lia.
Qed.

(** X5: with [use_timeout] and an endpoint that never comes up,
    [extensionPathActive] returns the not-available status after waiting
    exactly the timeout rounded up to whole 20 ms steps. *)
Theorem extensionPathActive_dead_wait (flags : Flags) (world : Z -> Snap) (path : string) (s : St) :
  (forall t, FacadeFacts.endpoint_live (world t) path = false) ->
  (extensionPathActive flags world path true s).1 = not_available path /\
  clock (extensionPathActive flags world path true s).2 =
    clock s + kExtensionInitializeLatency *
      ((delay_timeout (FLAGS_extensions_timeout flags) + 19) / 20).
Proof. exact (extensionPathActive_dead_wait_clock flags world path s). Qed.

Module ExtensionSideFacts.
Import ExtensionSide TraceFacts.

Lemma extensionPathActive_live (flags : Flags) (world : Z -> Snap) (path : string)
    (use_timeout : bool) (s : St) :
  FacadeFacts.endpoint_live (world (clock s)) path = true ->
  extensionPathActive flags world path use_timeout s =
    (mkStatus 0 "OK", mkSt (clock s) (trace s ++ [EvProbe path; EvConnect path])).
Proof.
  unfold FacadeFacts.endpoint_live. intros H.
  apply andb_prop in H as [Hpw Hc].
  unfold extensionPathActive, applyExtensionDelay.
  erewrite (delay_loop_exit_immediately _ _ _ _ _ _ false); [reflexivity| |reflexivity].
  unfold path_active_predicate. unfold_M. simpl. rewrite Hpw. simpl. rewrite Hc.
  simpl. by rewrite <- app_assoc.
Qed.

(** X6: one [ExtensionWatcher::watch] (socket-file branch) requests at
    most one exit and never waits: code 0 when the core is unreachable
    or its ping throws, the fatal code when the ping answers a failure
    and the watcher is fatal, none otherwise. *)
Theorem extension_watch_exit_codes (world : Z -> Snap) (kFatalExitCode : Z)
    (path : string) (fatal : bool) (s : St) :
  let snap := world (clock s) in
  let '(codes, s1) := extension_watch world kFatalExitCode path fatal s in
  clock s1 = clock s /\ (length codes <= 1)%nat /\
  ((sn_isWritable snap path && sn_connect snap path = false \/
    exists what, sn_isWritable snap path && sn_connect snap path = true /\
                 sn_ping snap path = inl what) -> codes = [0]) /\
  (forall status, sn_isWritable snap path && sn_connect snap path = true ->
     sn_ping snap path = inr status ->
     codes = if fatal && negb (es_code status =? EXT_SUCCESS) then [kFatalExitCode] else []).
Proof.
  simpl. unfold extension_watch, core_probe. unfold_M. simpl.
  destruct (sn_isWritable (world (clock s)) path) eqn:Ew; simpl;
    [destruct (sn_connect (world (clock s)) path) eqn:Ec; simpl|].
  - destruct (sn_ping (world (clock s)) path) as [what|st] eqn:Ep; simpl.
    + repeat split; intros; simplify_eq; try done; simpl; lia.
    + split; [reflexivity|]. split; [destruct fatal, (es_code st =? EXT_SUCCESS); simpl; lia|].
      split.
      * intros [H|(what & _ & H)]; simpl in H; discriminate.
      * intros st' _ H. injection H as <-.
        destruct fatal, (es_code st =? EXT_SUCCESS); reflexivity.
  - repeat split; intros; simplify_eq; try done; simpl; lia.
  - repeat split; intros; simplify_eq; try done; simpl; lia.
Qed.

(** X7: the tear-down loop of [ExtensionManagerWatcher::start] sends one
    [shutdown] request to each extension whose client can be built, in
    [routeUUIDs] order, skipping the others, without waiting. *)
Theorem manager_shutdown_requests (flags : Flags) (world : Z -> Snap) (uuids : list Z) (s : St) :
  manager_shutdown flags world uuids s =
    (tt, mkSt (clock s)
           (trace s ++ map (fun uuid => EvRpc (getExtensionSocket flags uuid) "shutdown")
                          (filter (fun uuid => sn_connect (world (clock s))
                                                 (getExtensionSocket flags uuid)) uuids))).
Proof.
  revert s. induction uuids as [|uuid rest IH]; intros s; simpl; unfold_M.
  - destruct s; simpl. by rewrite app_nil_r.
  - rewrite filter_cons.
    destruct (sn_connect (world (clock s)) (getExtensionSocket flags uuid)); simpl;
      rewrite IH; simpl; [by rewrite <- app_assoc|reflexivity].
Qed.

Ltac not_in_events :=
  let H := fresh "H" in
  intros H; rewrite ?in_app_iff in H; simpl in H;
  repeat (case_match; simpl in H); intuition discriminate.

(** X8: [startExtensionWatcher] starts the watcher service iff the
    manager endpoint answers the probe; on a live endpoint it returns OK
    at once, on a dead one it returns not-available after the full wait
    and starts no service. *)
Theorem startExtensionWatcher_outcome (flags : Flags) (world : Z -> Snap) (path : string)
    (s : St) :
  (FacadeFacts.endpoint_live (world (clock s)) path = true ->
     startExtensionWatcher flags world path s =
       (mkStatus 0 "OK", mkSt (clock s) (trace s ++ [EvProbe path; EvConnect path;
                                                     EvAddService "ExtensionWatcher"]))) /\
  ((forall t, FacadeFacts.endpoint_live (world t) path = false) ->
     let '(status, s1) := startExtensionWatcher flags world path s in
     status = not_available path /\
     clock s1 = clock s + kExtensionInitializeLatency *
                  ((delay_timeout (FLAGS_extensions_timeout flags) + 19) / 20) /\
     exists evs, trace s1 = trace s ++ evs /\
       Forall (fun e => forall n, e <> EvAddService n) evs).
Proof.
  split.
  - intros H. unfold startExtensionWatcher. unfold_M.
    rewrite (extensionPathActive_live flags world path true s H). simpl.
    by rewrite <- app_assoc.
  - intros Hdead. unfold startExtensionWatcher. unfold_M.
    destruct (extensionPathActive_dead_wait_clock flags world path s Hdead) as [H1 H2].
    destruct (extensionPathActive_extends_by (fun e => forall n, e <> EvAddService n)
                flags world path true ltac:(intros ?; discriminate)
                ltac:(intros ?; discriminate) ltac:(intros ?; discriminate) s)
      as (evs & Htr & Hf).
    destruct (extensionPathActive flags world path true s) as [st s1].
    simpl in *. subst st. simpl. split; [reflexivity|]. split; [exact H2|]. eauto.
Qed.

(** X9: on a live manager, the extension start never waits and starts
    the runner service iff it succeeds; success means registration and
    options both answered with a success code, the status carries the
    new UUID and the active plugins are read from the options; a failed
    registration code is returned as is, with no options call. *)
Theorem startExtension_at_outcome (flags : Flags) (world : Z -> Snap) (xworld : Z -> XSnap)
    (path name version min_sdk_version sdk_version : string) (s : St) :
  FacadeFacts.endpoint_live (world (clock s)) path = true ->
  let x := xworld (clock s) in
  let info := mkExtensionInfo name version min_sdk_version sdk_version in
  let '((status, active), s1) :=
    startExtension_at flags world xworld path name version min_sdk_version sdk_version s in
  clock s1 = clock s /\
  exists evs, trace s1 = trace s ++ evs /\
  (ok status = true <-> In (EvAddService "ExtensionRunner") evs) /\
  (ok status = true -> exists ext_status options,
     xs_register x path info = inr ext_status /\ es_code ext_status = EXT_SUCCESS /\
     xs_options x path = inr options /\
     status = mkStatus 0 (pretty (es_uuid ext_status)) /\
     active = [("config", option_value options "config_plugin");
               ("logger", option_value options "logger_plugin");
               ("distributed", option_value options "distributed_plugin")]) /\
  (forall ext_status, xs_register x path info = inr ext_status ->
     es_code ext_status <> EXT_SUCCESS ->
     status = of_ext_status ext_status /\ active = [] /\ ~ In (EvRpc path "options") evs).
Proof.
  intros Hlive. simpl. unfold startExtension_at, xnow. unfold_M.
  rewrite (extensionPathActive_live flags world path true s Hlive). simpl.
  destruct (xs_register (xworld (clock s)) path
              (mkExtensionInfo name version min_sdk_version sdk_version))
    as [what|es] eqn:Ereg; simpl.
  - split; [reflexivity|]. eexists. split; [by rewrite <- !app_assoc|].
    unfold register_failed, ok. simpl. split; [split; [discriminate|]|split].
    + not_in_events.
    + discriminate.
    + intros ? [=].
  - destruct (es_code es =? EXT_SUCCESS) eqn:Ec; simpl.
    + apply Z.eqb_eq in Ec.
      destruct (xs_options (xworld (clock s)) path) as [what|options] eqn:Eopt; simpl.
      * split; [reflexivity|]. eexists. split; [by rewrite <- !app_assoc|].
        unfold register_failed, ok. simpl. split; [split; [discriminate|]|split].
        -- not_in_events.
        -- discriminate.
        -- intros ? [= <-]. contradiction.
      * pose proof (socketWritable_effect world (getExtensionSocket_at (es_uuid es) path)
                     (mkSt (clock s) (((trace s ++ [EvProbe path; EvConnect path]) ++
                        [EvRpc path "registerExtension"]) ++ [EvRpc path "options"])))
          as Hsw. simpl in Hsw.
        destruct (socketWritable world (getExtensionSocket_at (es_uuid es) path) _)
          as [sw s2] eqn:Esw.
        destruct Hsw as (Hc2 & Hok & Htr2).
        destruct (ok sw) eqn:Eok; simpl.
        -- split; [exact Hc2|]. rewrite Htr2. eexists. split; [by rewrite <- !app_assoc|].
           split; [split; [intros _; rewrite !in_app_iff; do 4 right; simpl; left; reflexivity|reflexivity]|].
           split.
           ++ intros _. exists es, options. repeat split; done.
           ++ intros ? [= <-]. contradiction.
        -- split; [exact Hc2|]. rewrite Htr2. eexists. split; [by rewrite <- !app_assoc|].
           rewrite Eok. split; [split; [discriminate|]|split].
           ++ not_in_events.
           ++ discriminate.
           ++ intros ? [= <-]. contradiction.
    + split; [reflexivity|]. eexists. split; [by rewrite <- !app_assoc|].
      unfold of_ext_status, ok. simpl. apply Z.eqb_neq in Ec.
      assert (Ec' : (es_code es =? 0) = false) by (apply Z.eqb_neq; exact Ec).
      rewrite Ec'. split; [split; [discriminate|]|split].
      * not_in_events.
      * discriminate.
      * intros ? [= <-] _. split; [reflexivity|]. split; [reflexivity|].
        not_in_events.
Qed.


(** X10: if the manager socket never comes up, [startExtension] returns
    its not-available status after the full wait, having made no RPC and
    started no service. *)
Theorem startExtension_dead_manager (flags : Flags) (world : Z -> Snap) (xworld : Z -> XSnap)
    (kSDKVersion name version min_sdk_version : string) (s : St) :
  (forall t, FacadeFacts.endpoint_live (world t) (FLAGS_extensions_socket flags) = false) ->
  let '(status, s1) :=
    startExtension flags world xworld kSDKVersion name version min_sdk_version s in
  status = not_available (FLAGS_extensions_socket flags) /\
  clock s1 = clock s + kExtensionInitializeLatency *
               ((delay_timeout (FLAGS_extensions_timeout flags) + 19) / 20) /\
  exists evs, trace s1 = trace s ++ evs /\
    Forall (fun e => match e with
                     | EvProbe _ | EvConnect _ | EvSleep _ => True
                     | _ => False
                     end) evs.
Proof.
  intros Hdead. unfold startExtension, startExtensionWatcher. unfold_M.
  set (mp := FLAGS_extensions_socket flags).
  destruct (extensionPathActive_dead_wait_clock flags world mp s Hdead) as [H1 H2].
  destruct (extensionPathActive_extends_by
              (fun e => match e with
                        | EvProbe _ | EvConnect _ | EvSleep _ => True
                        | _ => False
                        end) flags world mp true I I I s) as (evs & Htr & Hf).
  destruct (extensionPathActive flags world mp true s) as [st s1].
  simpl in *. subst st. simpl. split; [reflexivity|]. split; [exact H2|]. eauto.
Qed.

End ExtensionSideFacts.

Module ListFacts.

(** [m.find(k)] on an [ExtensionList] kept as a sorted association list. *)
Definition alist_lookup {A} (k : Z) (l : list (Z * A)) : option A :=
  option_map snd (find (fun e => Z.eqb e.1 k) l).

(** The value of the last pair of [l] with key [k]. *)
Fixpoint last_entry {A} (k : Z) (l : list (Z * A)) : option A :=
  match l with
  | [] => None
  | e :: r =>
      match last_entry k r with
      | Some v => Some v
      | None => if e.1 =? k then Some e.2 else None
      end
  end.

Lemma alist_lookup_map_set {A} (k k' : Z) (v : A) (m : list (Z * A)) :
  alist_lookup k (map_set k' v m) = if k' =? k then Some v else alist_lookup k m.
Proof.
  unfold alist_lookup.
  enough (find (fun e => e.1 =? k) (map_set k' v m) =
          if k' =? k then Some (k', v) else find (fun e => e.1 =? k) m) as ->
    by (destruct (k' =? k); reflexivity).
  induction m as [|[k1 v1] r IH]; simpl.
  - destruct (k' =? k); reflexivity.
  - destruct (k' =? k1) eqn:E1.
    + apply Z.eqb_eq in E1. subst k1. simpl. destruct (k' =? k); reflexivity.
    + destruct (k' <? k1); simpl; [destruct (k' =? k); reflexivity|].
      rewrite IH. destruct (k1 =? k) eqn:E2; simpl; [|reflexivity].
      apply Z.eqb_eq in E2. subst k1. rewrite E1. reflexivity.
Qed.

Lemma alist_lookup_fold (k : Z) (l : list (Z * ExtensionInfo)) (acc : list (Z * ExtensionInfo)) :
  alist_lookup k (fold_left (fun acc ext =>
      map_set ext.1 (mkExtensionInfo (ei_name ext.2) (ei_version ext.2)
                       (ei_min_sdk_version ext.2) (ei_sdk_version ext.2)) acc) l acc) =
  match last_entry k l with
  | Some info => Some info
  | None => alist_lookup k acc
  end.
Proof.
  revert acc. induction l as [|[k1 info] r IH]; intros acc; simpl; [reflexivity|].
  rewrite IH, alist_lookup_map_set. simpl.
  destruct (last_entry k r); [reflexivity|].
  destruct (k1 =? k); [|reflexivity]. by destruct info.
Qed.

(** X12: after a successful [getExtensions], each UUID maps to the
    manager's last reported entry for it, else (UUID 0) to the core
    entry, else to the caller's previous entry. *)
Theorem getExtensions_at_merge (flags : Flags) (world : Z -> Snap)
    (kVersion kSDKVersion path : string) (extensions : ExtensionList) (s : St)
    (ext_list : list (Z * ExtensionInfo)) :
  FacadeFacts.endpoint_live (world (clock s)) path = true ->
  sn_extensions (world (clock s)) path = inr ext_list ->
  let '((status, extensions'), _) :=
    getExtensions_at flags world kVersion kSDKVersion path extensions s in
  status = mkStatus 0 "OK" /\
  forall uuid, alist_lookup uuid extensions' =
    match last_entry uuid ext_list with
    | Some info => Some info
    | None => if uuid =? 0 then Some (mkExtensionInfo "core" kVersion "0.0.0" kSDKVersion)
              else alist_lookup uuid extensions
    end.
Proof.
  intros Hlive Hext. unfold getExtensions_at. unfold_M.
  destruct (extensionPathActive_single_probe flags world path s) as (evs & Heq & _).
  rewrite Heq, Hlive. simpl. rewrite Hext. simpl.
  split; [reflexivity|]. intros uuid.
  rewrite alist_lookup_fold, alist_lookup_map_set.
  destruct (last_entry uuid ext_list); [reflexivity|].
  by destruct (Z.eqb_spec 0 uuid), (Z.eqb_spec uuid 0); try lia.
Qed.

(** X13: on an answered [getQueryColumns] call, the status is the
    response's status and the columns of every response row are appended
    in order, named and typed as in the response, with default options,
    whatever that status is. *)
Theorem getQueryColumnsExternal_at_columns (flags : Flags) (world : Z -> Snap)
    (columnTypeName : string -> Z) (path query : string) (columns : TableColumns) (s : St)
    (response : ExtensionResponse) :
  FacadeFacts.endpoint_live (world (clock s)) path = true ->
  sn_getQueryColumns (world (clock s)) path query = inr response ->
  let '((status, columns'), _) :=
    getQueryColumnsExternal_at flags world columnTypeName path query columns s in
  status = of_ext_status (er_status response) /\
  exists added, columns' = columns ++ added /\
    map (fun c => c.1.1) added = flat_map (map fst) (er_response response) /\
    map (fun c => c.1.2) added =
      flat_map (map (fun col => columnTypeName col.2)) (er_response response) /\
    Forall (fun c => c.2 = 0) added.
Proof.
  intros Hlive Hq. unfold getQueryColumnsExternal_at. unfold_M.
  destruct (extensionPathActive_single_probe flags world path s) as (evs & Heq & _).
  rewrite Heq, Hlive. simpl. rewrite Hq. simpl.
  split; [reflexivity|]. eexists. split; [reflexivity|].
  induction (er_response response) as [|row rows IH]; simpl; [repeat constructor|].
  destruct IH as (IH1 & IH2 & IH3).
  rewrite !map_app, IH1, IH2, !map_map. simpl.
  split; [reflexivity|split; [reflexivity|]].
  apply Forall_app. split; [|exact IH3].
  clear. induction row; simpl; constructor; auto.
Qed.

End ListFacts.

Module LedgerFacts.
Import ManagerWatcher.

Lemma watch_uuid_dom (plat : Platform) (env : TickEnv) (failures : Ledger) (uuid : Z) :
  dom (watch_uuid plat env failures uuid) =
    dom failures ∪ match plat with
                   | Posix => {[uuid]}
                   | Win32 => if te_pipe_exists env uuid then ∅ else {[uuid]}
                   end.
Proof.
  unfold watch_uuid. destruct plat.
  - repeat case_match; rewrite ?dom_insert_L; set_solver.
  - destruct (te_pipe_exists env uuid); rewrite ?dom_insert_L; set_solver.
Qed.

(** X14: a [ExtensionManagerWatcher::watch] tick never removes a UUID
    from the failure ledger: the keys become the old keys plus every
    snapshot UUID (socket files) or every snapshot UUID whose pipe is
    missing (named pipes). *)
Theorem watch_ledger_keys (plat : Platform) (env : TickEnv) (uuids : list Z)
    (failures : Ledger) :
  dom (watch plat env uuids failures).1 =
    dom failures ∪ list_to_set (match plat with
                                | Posix => uuids
                                | Win32 => filter (fun u => negb (te_pipe_exists env u)) uuids
                                end).
Proof.
  unfold watch, reset. simpl. rewrite dom_fmap_L.
  revert failures. induction uuids as [|uuid rest IH]; intros failures; simpl.
  - destruct plat; simpl; set_solver.
  - rewrite IH, watch_uuid_dom. destruct plat; simpl; [set_solver|].
    rewrite filter_cons. destruct (te_pipe_exists env uuid); simpl; set_solver.
Qed.

End LedgerFacts.

(* ------------------------------------------------------------------ *)
(** ** Instances of the extension-side and facade theorems *)

Lemma facade_dead_endpoint_witness :
  exists evs,
    queryExternal_at flags_require (fun _ => stale_snap) gone "select 1" [] (mkSt 0 []) =
      ((not_available gone, []), mkSt 0 ([] ++ evs)) /\
    Forall (fun e => e = EvProbe gone \/ e = EvConnect gone) evs.
Proof.
  exact (proj1 (facade_dead_endpoint flags_require (fun _ => stale_snap) "5.0.0" "5.0.0"
                  (fun _ => 0) gone (mkSt 0 []) eq_refl) "select 1" []).
Defined.

Lemma applyExtensionDelay_wait_bound_witness :
  clock (applyExtensionDelay flags_require (fun s => ((false, mkStatus 1 "down"), s))
           (mkSt 0 [])).2 <=
    clock (mkSt 0 []) + kExtensionInitializeLatency *
      ((delay_timeout (FLAGS_extensions_timeout flags_require) + 19) / 20).
Proof.
  apply (applyExtensionDelay_wait_bound flags_require (fun s => ((false, mkStatus 1 "down"), s))
           (mkSt 0 [])).
  intros s. reflexivity.
Defined.

Lemma extensionPathActive_dead_wait_witness :
  (extensionPathActive flags_require (fun _ => stale_snap) gone true (mkSt 0 [])).1 =
    not_available gone /\
  clock (extensionPathActive flags_require (fun _ => stale_snap) gone true (mkSt 0 [])).2 =
    clock (mkSt 0 []) + kExtensionInitializeLatency *
      ((delay_timeout (FLAGS_extensions_timeout flags_require) + 19) / 20).
Proof.
  apply (extensionPathActive_dead_wait flags_require (fun _ => stale_snap) gone (mkSt 0 [])).
  intros t. reflexivity.
Defined.

Lemma startExtension_at_outcome_witness :
  clock (ExtensionSide.startExtension_at flags_require (fun _ => healthy_snap) xworld_ok sock
           "probe" "1.0.0" "0.0.0" "5.0.0" (mkSt 0 [])).2 = 0.
Proof.
  pose proof (ExtensionSideFacts.startExtension_at_outcome flags_require (fun _ => healthy_snap)
                xworld_ok sock "probe" "1.0.0" "0.0.0" "5.0.0" (mkSt 0 []) eq_refl) as H.
  destruct (ExtensionSide.startExtension_at flags_require (fun _ => healthy_snap) xworld_ok sock
              "probe" "1.0.0" "0.0.0" "5.0.0" (mkSt 0 [])) as [[status active] s1].
  exact (proj1 H).
Defined.

Lemma startExtension_dead_manager_witness :
  (ExtensionSide.startExtension flags_gone (fun _ => stale_snap) xworld_ok "5.0.0" "probe" "1.0.0" "0.0.0"
     (mkSt 0 [])).1 = not_available gone.
Proof.
  pose proof (ExtensionSideFacts.startExtension_dead_manager flags_gone (fun _ => stale_snap)
                xworld_ok "5.0.0" "probe" "1.0.0" "0.0.0" (mkSt 0 []) (fun t => eq_refl)) as H.
  destruct (ExtensionSide.startExtension flags_gone (fun _ => stale_snap) xworld_ok "5.0.0" "probe" "1.0.0"
              "0.0.0" (mkSt 0 [])) as [status s1].
  exact (proj1 H).
Defined.

Lemma getExtensions_at_merge_witness :
  ListFacts.alist_lookup 1
    (getExtensions_at flags_require (fun _ => stale_snap) "5.0.0" "5.0.0" sock []
       (mkSt 0 [])).1.2 = Some (mkExtensionInfo "probe-a" "1.0.0" "0.0.0" "1.0.0").
Proof.
  pose proof (ListFacts.getExtensions_at_merge flags_require (fun _ => stale_snap)
                "5.0.0" "5.0.0" sock [] (mkSt 0 [])
                [(1, mkExtensionInfo "probe-a" "1.0.0" "0.0.0" "1.0.0")] eq_refl eq_refl) as H.
  destruct (getExtensions_at flags_require (fun _ => stale_snap) "5.0.0" "5.0.0" sock []
              (mkSt 0 [])) as [[status extensions'] s1].
  exact (proj2 H 1).
Defined.

Lemma getQueryColumnsExternal_at_columns_witness :
  (getQueryColumnsExternal_at flags_require (fun _ => healthy_snap) (fun _ => 0) sock
     "select 1" [] (mkSt 0 [])).1.1 = of_ext_status ok_ext_status.
Proof.
  pose proof (ListFacts.getQueryColumnsExternal_at_columns flags_require (fun _ => healthy_snap)
                (fun _ => 0) sock "select 1" [] (mkSt 0 [])
                (mkExtensionResponse ok_ext_status [[("name", "TEXT")]]) eq_refl eq_refl) as H.
  destruct (getQueryColumnsExternal_at flags_require (fun _ => healthy_snap) (fun _ => 0) sock
              "select 1" [] (mkSt 0 [])) as [[status columns'] s1].
  exact (proj1 H).
Defined.
